(** * The to-device message store ([synapse/storage/deviceinbox.py])

    A shallow embedding of [DeviceInboxStore]: the three SQL tables it
    writes, the [devices] table it consults, the stream-id generator and
    the two stream-change caches it holds, and every method of the class.

    SQL statements are pure functions over tables (lists of rows, in
    insertion order).  A transaction is a state-and-exception monad over a
    working copy of the database; [runInteraction] commits the copy or
    throws it away.  Python dictionaries are [gmap]s. *)

From Stdlib Require Import ZArith Sorted.
From stdpp Require Import base option list gmap strings sorting.

Open Scope Z_scope.

(** ** Rows and tables *)

(** [device_inbox (user_id, device_id, stream_id, message_json)] *)
Record device_inbox_row := DeviceInboxRow {
  di_user_id : string;
  di_device_id : string;
  di_stream_id : Z;
  di_message_json : string;
}.

(** [device_federation_outbox (destination, stream_id, queued_ts, messages_json)] *)
Record device_federation_outbox_row := FederationOutboxRow {
  fo_destination : string;
  fo_stream_id : Z;
  fo_queued_ts : Z;
  fo_messages_json : string;
}.

(** [device_federation_inbox (origin, message_id, received_ts)] *)
Record device_federation_inbox_row := FederationInboxRow {
  fi_origin : string;
  fi_message_id : string;
  fi_received_ts : Z;
}.

#[global] Instance device_inbox_row_eq_dec : EqDecision device_inbox_row.
Proof. solve_decision. Defined.
#[global] Instance device_federation_outbox_row_eq_dec :
  EqDecision device_federation_outbox_row.
Proof. solve_decision. Defined.
#[global] Instance device_federation_inbox_row_eq_dec :
  EqDecision device_federation_inbox_row.
Proof. solve_decision. Defined.

(** The part of the database this store touches.  [devices] is owned by the
    device store; here it is only read. *)
Record Database := MkDatabase {
  devices : list (string * string);
  device_inbox : list device_inbox_row;
  device_federation_outbox : list device_federation_outbox_row;
  device_federation_inbox : list device_federation_inbox_row;
}.

Definition insert_device_inbox (rows : list device_inbox_row) (d : Database)
  : Database :=
  {| devices := devices d;
     device_inbox := device_inbox d ++ rows;
     device_federation_outbox := device_federation_outbox d;
     device_federation_inbox := device_federation_inbox d |}.

Definition insert_device_federation_outbox
  (rows : list device_federation_outbox_row) (d : Database) : Database :=
  {| devices := devices d;
     device_inbox := device_inbox d;
     device_federation_outbox := device_federation_outbox d ++ rows;
     device_federation_inbox := device_federation_inbox d |}.

Definition insert_device_federation_inbox
  (rows : list device_federation_inbox_row) (d : Database) : Database :=
  {| devices := devices d;
     device_inbox := device_inbox d;
     device_federation_outbox := device_federation_outbox d;
     device_federation_inbox := device_federation_inbox d ++ rows |}.

(** ** SQL fragments *)

(** [ORDER BY key ASC]: a stable insertion sort.  SQL leaves the order of
    rows with equal keys open; this is one admissible choice. *)
Fixpoint insert_by {A} (key : A → Z) (x : A) (l : list A) : list A :=
  match l with
  | [] => [x]
  | y :: l' => if decide (key x ≤ key y) then x :: l else y :: insert_by key x l'
  end.

Fixpoint order_by {A} (key : A → Z) (l : list A) : list A :=
  match l with
  | [] => []
  | x :: l' => insert_by key x (order_by key l')
  end.

(** [? < stream_id AND stream_id <= ?] *)
Definition in_window (last_pos current_pos stream_id : Z) : Prop :=
  last_pos < stream_id ∧ stream_id ≤ current_pos.

#[global] Instance in_window_dec a b s : Decision (in_window a b s).
Proof. unfold in_window. apply _. Defined.

(** [SELECT user_id, device_id FROM devices
     WHERE user_id = ? AND device_id IN (...)].  For a user with no
    device in the batch the list is empty and nothing is selected; an
    engine that refuses an empty list raises at this statement, which is a
    spent budget below. *)
Definition select_devices (tbl : list (string * string))
    (user_id : string) (device_ids : list string) : list (string * string) :=
  filter (λ r, r.1 = user_id ∧ r.2 ∈ device_ids) tbl.

(** [SELECT stream_id, message_json FROM device_inbox
     WHERE user_id = ? AND device_id = ? AND ? < stream_id AND stream_id <= ?
     ORDER BY stream_id ASC] (before [LIMIT]) *)
Definition device_inbox_between (tbl : list device_inbox_row)
    (user_id device_id : string) (last_stream_id current_stream_id : Z)
  : list device_inbox_row :=
  order_by di_stream_id
    (filter (λ r, di_user_id r = user_id ∧ di_device_id r = device_id
                  ∧ in_window last_stream_id current_stream_id (di_stream_id r))
            tbl).

(** The same statement with its [LIMIT ?].  A row count is a natural
    number: a negative [LIMIT] means different things to different
    engines and is not modelled. *)
Definition select_device_inbox (tbl : list device_inbox_row)
    (user_id device_id : string) (last_stream_id current_stream_id : Z)
    (limit : nat) : list (Z * string) :=
  (λ r, (di_stream_id r, di_message_json r)) <$>
    take limit
      (device_inbox_between tbl user_id device_id last_stream_id current_stream_id).

(** [SELECT stream_id, messages_json FROM device_federation_outbox
     WHERE destination = ? AND ? < stream_id AND stream_id <= ?
     ORDER BY stream_id ASC] (before [LIMIT]) *)
Definition device_federation_outbox_between
    (tbl : list device_federation_outbox_row) (destination : string)
    (last_stream_id current_stream_id : Z)
  : list device_federation_outbox_row :=
  order_by fo_stream_id
    (filter (λ r, fo_destination r = destination
                  ∧ in_window last_stream_id current_stream_id (fo_stream_id r))
            tbl).

Definition select_device_federation_outbox
    (tbl : list device_federation_outbox_row) (destination : string)
    (last_stream_id current_stream_id : Z) (limit : nat) : list (Z * string) :=
  (λ r, (fo_stream_id r, fo_messages_json r)) <$>
    take limit
      (device_federation_outbox_between tbl destination
         last_stream_id current_stream_id).

(** A row fetched by a query that selects [stream_id] alone: a tuple of
    one column. *)
Record stream_id_row := StreamIdRow {
  sr_stream_id : Z;
}.

(** [SELECT stream_id FROM device_inbox
     WHERE ? < stream_id AND stream_id <= ?
     GROUP BY stream_id ORDER BY stream_id ASC LIMIT ?] *)
Definition select_stream_ids (tbl : list device_inbox_row)
    (last_pos current_pos : Z) (limit : nat) : list stream_id_row :=
  StreamIdRow <$>
    take limit
      (order_by id
         (remove_dups
            (di_stream_id <$>
               filter (λ r, in_window last_pos current_pos (di_stream_id r))
                      tbl))).

(** [SELECT stream_id, user_id, device_id, message_json FROM device_inbox
     WHERE ? < stream_id AND stream_id <= ? ORDER BY stream_id ASC] *)
Definition select_all_between (tbl : list device_inbox_row)
    (last_pos max_stream_id : Z) : list device_inbox_row :=
  order_by di_stream_id
    (filter (λ r, in_window last_pos max_stream_id (di_stream_id r)) tbl).

(** [DELETE FROM device_inbox
     WHERE user_id = ? AND device_id = ? AND stream_id <= ?] *)
Definition delete_from_device_inbox (tbl : list device_inbox_row)
    (user_id device_id : string) (up_to_stream_id : Z)
  : list device_inbox_row :=
  filter (λ r, ¬ (di_user_id r = user_id ∧ di_device_id r = device_id
                  ∧ di_stream_id r ≤ up_to_stream_id)) tbl.

(** [DELETE FROM device_federation_outbox
     WHERE destination = ? AND stream_id <= ?] *)
Definition delete_from_device_federation_outbox
    (tbl : list device_federation_outbox_row) (destination : string)
    (up_to_stream_id : Z) : list device_federation_outbox_row :=
  filter (λ r, ¬ (fo_destination r = destination
                  ∧ fo_stream_id r ≤ up_to_stream_id)) tbl.

(** ** Exceptions and transactions *)

Inductive exn :=
  | DatabaseError      (* raised by the storage engine *)
  | UnboundLocalError. (* a local variable read before any assignment *)

Inductive outcome (A : Type) :=
  | Returned (a : A)
  | Raised (e : exn).
Arguments Returned {A} a.
Arguments Raised {A} e.

#[global] Instance exn_eq_dec : EqDecision exn.
Proof. solve_decision. Defined.

(** The cursor handed to a transaction function: the working copy of the
    database, and how many more statements the storage engine will execute
    before it raises ([None]: it never does).  Why it raises is the
    engine's business: a lost connection, a statement it refuses. *)
Record LoggingTransaction := MkTxn {
  txn_db : Database;
  txn_budget : option nat;
}.

Definition Txn (A : Type) : Type :=
  LoggingTransaction → outcome (A * LoggingTransaction).

Definition txn_ret {A} (a : A) : Txn A := λ t, Returned (a, t).

Definition txn_bind {A B} (m : Txn A) (k : A → Txn B) : Txn B :=
  λ t, match m t with
       | Returned (a, t') => k a t'
       | Raised e => Raised e
       end.

Definition txn_raise {A} (e : exn) : Txn A := λ _, Raised e.

Declare Scope txn_scope.
Delimit Scope txn_scope with txn.
Notation "x ←← m ;; k" := (txn_bind m (λ x, k))
  (at level 100, m at next level, right associativity) : txn_scope.
Notation "m ;;; k" := (txn_bind m (λ _, k))
  (at level 100, right associativity) : txn_scope.
Open Scope txn_scope.

(** One round trip to the engine ([txn.execute], [txn.executemany], the
    commit): it raises when the budget is spent. *)
Definition statement : Txn unit :=
  λ t, match txn_budget t with
       | Some O => Raised DatabaseError
       | Some (S n) => Returned ((), MkTxn (txn_db t) (Some n))
       | None => Returned ((), t)
       end.

Definition txn_read {A} (q : Database → A) : Txn A :=
  statement ;;; (λ t, Returned (q (txn_db t), t)).

Definition txn_write (w : Database → Database) : Txn unit :=
  statement ;;; (λ t, Returned ((), MkTxn (w (txn_db t)) (txn_budget t))).

(** [for x in xs: body(x)], threading an accumulator. *)
Fixpoint txn_for {A S} (xs : list A) (body : A → S → Txn S) (acc : S) : Txn S :=
  match xs with
  | [] => txn_ret acc
  | x :: xs' => acc' ←← body x acc ;; txn_for xs' body acc'
  end.

(** The DB-API modules a transaction's cursor can sit on.  Both fetch rows
    as tuples; they differ in what [execute] makes of a tuple given as the
    value of a [?]. *)
Inductive driver :=
  | sqlite3
  | psycopg2.

(** A fetched row bound to a [?] that is compared with a number.
    [psycopg2] adapts a tuple to the parenthesised list of its items, which
    for a row of one column is that column's value.  [sqlite3] binds
    numbers, strings and blobs only: given a tuple it raises. *)
Definition bind_row (db : driver) (row : stream_id_row) : option Z :=
  match db with
  | psycopg2 => Some (sr_stream_id row)
  | sqlite3 => None
  end.

(** Modelled from the spec: [SQLBaseStore.runInteraction] ([_base.py]), the
    transactional execution context.  It runs the function on a working copy;
    if the function returns and the commit goes through, the copy becomes the
    database, otherwise the database is left as it was and the exception
    reaches the caller. *)
Definition runInteraction {A} (func : Txn A) (budget : option nat)
    (d : Database) : outcome A * Database :=
  match (r ←← func ;; statement ;;; txn_ret r) (MkTxn d budget) with
  | Returned (r, t) => (Returned r, txn_db t)
  | Raised e => (Raised e, d)
  end.

(** Modelled from the spec: [SQLBaseStore._simple_select_one_txn] with
    [allow_none=True] on [device_federation_inbox]: the [message_id] of the
    row with this [(origin, message_id)], or [None].  The table is unique
    on [(origin, message_id)], so there is at most one such row. *)
Definition _simple_select_one_txn (origin message_id : string)
  : Txn (option string) :=
  txn_read (λ d,
    fi_message_id <$>
      head (filter (λ r, fi_origin r = origin ∧ fi_message_id r = message_id)
                   (device_federation_inbox d))).

(** Modelled from the spec: [SQLBaseStore._simple_insert_txn] on
    [device_federation_inbox]. *)
Definition _simple_insert_txn (origin message_id : string) (received_ts : Z)
  : Txn unit :=
  txn_write (insert_device_federation_inbox
               [FederationInboxRow origin message_id received_ts]).

(** ** The collaborators held by the store *)

(** Modelled from the spec: the stream position allocator
    ([_device_inbox_id_gen], a [StreamIdGenerator] from
    [synapse/storage/util/id_generators.py]).  It issues strictly increasing
    positions, one per [get_next] scope, and [get_current_token] exposes the
    latest position whose scope has been left.  Scopes are entered and left
    one after the other here, so leaving a scope changes nothing more. *)
Record StreamIdGenerator := MkIdGen {
  id_gen_current : Z;
}.

Definition get_next (g : StreamIdGenerator) : Z * StreamIdGenerator :=
  (id_gen_current g + 1, MkIdGen (id_gen_current g + 1)).

Definition get_current_token (g : StreamIdGenerator) : Z := id_gen_current g.

(** Modelled from the spec: the change-notification cache (a
    [StreamChangeCache] from [synapse/util/caches/stream_change_cache.py]),
    a sparse record of the highest stream position at which each entity was
    touched. *)
Definition entity_has_changed (entity : string) (stream_pos : Z)
    (cache : gmap string Z) : gmap string Z :=
  <[entity := match cache !! entity with
              | Some old_pos => Z.max stream_pos old_pos
              | None => stream_pos
              end]> cache.

Definition has_entity_changed (cache : gmap string Z) (entity : string)
    (stream_pos : Z) : bool :=
  match cache !! entity with
  | Some latest => bool_decide (stream_pos < latest)
  | None => false
  end.

Record DeviceInboxStore := MkStore {
  database : Database;
  device_inbox_id_gen : StreamIdGenerator;
  device_inbox_stream_cache : gmap string Z;
  device_federation_outbox_stream_cache : gmap string Z;
}.

(** [for entity in keys: cache.entity_has_changed(entity, stream_id)] *)
Definition mark_all_changed (entities : list string) (stream_id : Z)
    (cache : gmap string Z) : gmap string Z :=
  foldl (λ c entity, entity_has_changed entity stream_id c) cache entities.

(** ** The methods of [DeviceInboxStore] *)

Section DeviceInboxStore.

(** Message bodies are JSON values; [ujson] turns them into text and back. *)
Context {json : Type}.
Variable ujson_dumps : json → string.
Variable ujson_loads : string → json.

(** The rows built by the second loop of
    [_add_messages_to_local_device_inbox_txn]. *)
Definition local_inbox_rows (local_users_and_devices : gset (string * string))
    (stream_id : Z) (messages_by_user_then_device : gmap string (gmap string json))
  : list device_inbox_row :=
  map_to_list messages_by_user_then_device ≫= λ '(user_id, messages_by_device),
  map_to_list messages_by_device ≫= λ '(device_id, message),
    let message_json := ujson_dumps message in
    if decide ((user_id, device_id) ∈ local_users_and_devices)
    then [DeviceInboxRow user_id device_id stream_id message_json]
    else [].

(** [_add_messages_to_local_device_inbox_txn].  The code is Python 2:
    [messages_by_device.keys()] is a list, appended to [[user_id]] as the
    parameters of the [SELECT]. *)
Definition _add_messages_to_local_device_inbox_txn (stream_id : Z)
    (messages_by_user_then_device : gmap string (gmap string json)) : Txn unit :=
  local_users_and_devices ←←
    txn_for (map_to_list messages_by_user_then_device)
      (λ '(user_id, messages_by_device) (acc : gset (string * string)),
         let device_ids := (map_to_list messages_by_device).*1 in
         fetched ←← txn_read (λ d, select_devices (devices d) user_id device_ids) ;;
         txn_ret (acc ∪ list_to_set fetched))
      ∅ ;;
  txn_write
    (insert_device_inbox
       (local_inbox_rows local_users_and_devices stream_id
          messages_by_user_then_device)).

(** The rows built for [device_federation_outbox]. *)
Definition federation_outbox_rows (stream_id now_ms : Z)
    (remote_messages_by_destination : gmap string json)
  : list device_federation_outbox_row :=
  (λ '(destination, edu),
     FederationOutboxRow destination stream_id now_ms (ujson_dumps edu))
  <$> map_to_list remote_messages_by_destination.

(** [add_messages_txn] of [add_messages_to_device_inbox]. *)
Definition add_messages_to_device_inbox_txn
    (local_messages_by_user_then_device : gmap string (gmap string json))
    (remote_messages_by_destination : gmap string json)
    (now_ms stream_id : Z) : Txn unit :=
  _add_messages_to_local_device_inbox_txn stream_id
    local_messages_by_user_then_device ;;;
  txn_write
    (insert_device_federation_outbox
       (federation_outbox_rows stream_id now_ms remote_messages_by_destination)).

(** [add_messages_to_device_inbox].  [now_ms] is what the clock reads and
    [budget] what the storage engine will do; the result is what the
    deferred resolves to, together with the store afterwards. *)
Definition add_messages_to_device_inbox
    (local_messages_by_user_then_device : gmap string (gmap string json))
    (remote_messages_by_destination : gmap string json)
    (now_ms : Z) (budget : option nat) (s : DeviceInboxStore)
  : outcome Z * DeviceInboxStore :=
  let '(stream_id, id_gen) := get_next (device_inbox_id_gen s) in
  match runInteraction
          (add_messages_to_device_inbox_txn local_messages_by_user_then_device
             remote_messages_by_destination now_ms stream_id)
          budget (database s) with
  | (Returned _, d) =>
      let inbox_cache :=
        mark_all_changed (map_to_list local_messages_by_user_then_device).*1
          stream_id (device_inbox_stream_cache s) in
      let outbox_cache :=
        mark_all_changed (map_to_list remote_messages_by_destination).*1
          stream_id (device_federation_outbox_stream_cache s) in
      (Returned (get_current_token id_gen),
       MkStore d id_gen inbox_cache outbox_cache)
  | (Raised e, d) =>
      (Raised e,
       MkStore d id_gen (device_inbox_stream_cache s)
         (device_federation_outbox_stream_cache s))
  end.

(** [add_messages_txn] of [add_messages_from_remote_to_device_inbox]. *)
Definition add_messages_from_remote_to_device_inbox_txn
    (origin message_id : string)
    (local_messages_by_user_then_device : gmap string (gmap string json))
    (now_ms stream_id : Z) : Txn unit :=
  already_inserted ←← _simple_select_one_txn origin message_id ;;
  match already_inserted with
  | Some _ => txn_ret ()
  | None =>
      _simple_insert_txn origin message_id now_ms ;;;
      _add_messages_to_local_device_inbox_txn stream_id
        local_messages_by_user_then_device
  end.

Definition add_messages_from_remote_to_device_inbox
    (origin message_id : string)
    (local_messages_by_user_then_device : gmap string (gmap string json))
    (now_ms : Z) (budget : option nat) (s : DeviceInboxStore)
  : outcome unit * DeviceInboxStore :=
  let '(stream_id, id_gen) := get_next (device_inbox_id_gen s) in
  match runInteraction
          (add_messages_from_remote_to_device_inbox_txn origin message_id
             local_messages_by_user_then_device now_ms stream_id)
          budget (database s) with
  | (Returned _, d) =>
      let inbox_cache :=
        mark_all_changed (map_to_list local_messages_by_user_then_device).*1
          stream_id (device_inbox_stream_cache s) in
      (Returned (),
       MkStore d id_gen inbox_cache (device_federation_outbox_stream_cache s))
  | (Raised e, d) =>
      (Raised e,
       MkStore d id_gen (device_inbox_stream_cache s)
         (device_federation_outbox_stream_cache s))
  end.

(** The loop and the two lines after it, shared by both cursor readers:
<<
    messages = []
    for row in txn.fetchall():
        stream_pos = row[0]
        messages.append(ujson.loads(row[1]))
    if len(messages) < limit:
        stream_pos = current_stream_id
    return (messages, stream_pos)
>>
    [stream_pos] starts out unbound ([None]). *)
Definition collect_messages (rows : list (Z * string)) (current_stream_id : Z)
    (limit : nat) : outcome (list json * Z) :=
  let '(messages, stream_pos) :=
    foldl (λ '(messages, _) row, (messages ++ [ujson_loads row.2], Some row.1))
          ([], None) rows in
  let stream_pos :=
    if decide (length messages < limit)%nat then Some current_stream_id
    else stream_pos in
  match stream_pos with
  | Some pos => Returned (messages, pos)
  | None => Raised UnboundLocalError
  end.

Definition get_new_messages_for_device_txn (user_id device_id : string)
    (last_stream_id current_stream_id : Z) (limit : nat) : Txn (list json * Z) :=
  rows ←← txn_read (λ d, select_device_inbox (device_inbox d) user_id device_id
                           last_stream_id current_stream_id limit) ;;
  match collect_messages rows current_stream_id limit with
  | Returned r => txn_ret r
  | Raised e => txn_raise e
  end.

Definition get_new_messages_for_device (user_id device_id : string)
    (last_stream_id current_stream_id : Z) (limit : nat)
    (budget : option nat) (s : DeviceInboxStore) : outcome (list json * Z) :=
  let has_changed :=
    has_entity_changed (device_inbox_stream_cache s) user_id last_stream_id in
  if negb has_changed then Returned ([], current_stream_id)
  else
    (runInteraction
       (get_new_messages_for_device_txn user_id device_id last_stream_id
          current_stream_id limit)
       budget (database s)).1.

Definition get_new_messages_for_remote_destination_txn (destination : string)
    (last_stream_id current_stream_id : Z) (limit : nat) : Txn (list json * Z) :=
  rows ←← txn_read (λ d, select_device_federation_outbox
                           (device_federation_outbox d) destination
                           last_stream_id current_stream_id limit) ;;
  match collect_messages rows current_stream_id limit with
  | Returned r => txn_ret r
  | Raised e => txn_raise e
  end.

Definition get_new_device_msgs_for_remote (destination : string)
    (last_stream_id current_stream_id : Z) (limit : nat)
    (budget : option nat) (s : DeviceInboxStore) : outcome (list json * Z) :=
  let has_changed :=
    has_entity_changed (device_federation_outbox_stream_cache s) destination
      last_stream_id in
  if negb has_changed then Returned ([], current_stream_id)
  else
    (runInteraction
       (get_new_messages_for_remote_destination_txn destination last_stream_id
          current_stream_id limit)
       budget (database s)).1.

(** A caller paging through one device's inbox: one read per entry of
    [reads] (its [limit], and what the storage engine does during it), each
    starting where the previous one said it got to.  An exception ends the
    paging. *)
Fixpoint read_sequence (user_id device_id : string) (current_stream_id : Z)
    (reads : list (nat * option nat)) (last_stream_id : Z)
    (s : DeviceInboxStore) : outcome (list json * Z) :=
  match reads with
  | [] => Returned ([], last_stream_id)
  | (limit, budget) :: reads' =>
      match get_new_messages_for_device user_id device_id last_stream_id
              current_stream_id limit budget s with
      | Returned (messages, stream_pos) =>
          match read_sequence user_id device_id current_stream_id reads'
                  stream_pos s with
          | Returned (more, final_pos) => Returned (messages ++ more, final_pos)
          | Raised e => Raised e
          end
      | Raised e => Raised e
      end
  end.

(** What is stored for a device between two positions, oldest first, as
    the reader decodes it. *)
Definition stored_payloads (s : DeviceInboxStore) (user_id device_id : string)
    (last_stream_id current_stream_id : Z) : list json :=
  (λ r, ujson_loads (di_message_json r)) <$>
    device_inbox_between (device_inbox (database s)) user_id device_id
      last_stream_id current_stream_id.

(** The federation sender paging through one destination's outbox, in the
    same way. *)
Fixpoint read_sequence_remote (destination : string) (current_stream_id : Z)
    (reads : list (nat * option nat)) (last_stream_id : Z)
    (s : DeviceInboxStore) : outcome (list json * Z) :=
  match reads with
  | [] => Returned ([], last_stream_id)
  | (limit, budget) :: reads' =>
      match get_new_device_msgs_for_remote destination last_stream_id
              current_stream_id limit budget s with
      | Returned (messages, stream_pos) =>
          match read_sequence_remote destination current_stream_id reads'
                  stream_pos s with
          | Returned (more, final_pos) => Returned (messages ++ more, final_pos)
          | Raised e => Raised e
          end
      | Raised e => Raised e
      end
  end.

(** What is queued for a destination between two positions, oldest first,
    as the reader decodes it. *)
Definition stored_remote_payloads (s : DeviceInboxStore) (destination : string)
    (last_stream_id current_stream_id : Z) : list json :=
  (λ r, ujson_loads (fo_messages_json r)) <$>
    device_federation_outbox_between (device_federation_outbox (database s))
      destination last_stream_id current_stream_id.

(** The local-inbox rows a batch stands for: one per addressed device that
    the [devices] table knows. *)
Definition expected_local_rows (tbl : list (string * string)) (stream_id : Z)
    (messages_by_user_then_device : gmap string (gmap string json))
  : list device_inbox_row :=
  map_to_list messages_by_user_then_device ≫= λ '(user_id, messages_by_device),
  map_to_list messages_by_device ≫= λ '(device_id, message),
    if decide ((user_id, device_id) ∈ tbl)
    then [DeviceInboxRow user_id device_id stream_id (ujson_dumps message)]
    else [].

End DeviceInboxStore.

(** The remaining methods do not look inside message bodies. *)

(** [max_stream_id_in_limit] is [stream_ids[-1]], the last row of the first
    query and not its column; the second [execute] is given that row as its
    upper bound, and what happens then is the driver's doing. *)
Definition get_all_new_device_messages_txn (db : driver)
    (last_pos current_pos : Z) (limit : nat) : Txn (list device_inbox_row) :=
  stream_ids ←← txn_read (λ d, select_stream_ids (device_inbox d)
                                 last_pos current_pos limit) ;;
  match last stream_ids with
  | None => txn_ret []
  | Some max_stream_id_in_limit =>
      match bind_row db max_stream_id_in_limit with
      | Some bound =>
          txn_read (λ d, select_all_between (device_inbox d) last_pos bound)
      | None => txn_raise DatabaseError
      end
  end.

Definition get_all_new_device_messages (db : driver) (last_pos current_pos : Z)
    (limit : nat) (budget : option nat) (s : DeviceInboxStore)
  : outcome (list device_inbox_row) :=
  if decide (last_pos = current_pos) then Returned []
  else
    (runInteraction
       (get_all_new_device_messages_txn db last_pos current_pos limit)
       budget (database s)).1.

Definition get_to_device_stream_token (s : DeviceInboxStore) : Z :=
  get_current_token (device_inbox_id_gen s).

Definition delete_messages_for_device_txn (user_id device_id : string)
    (up_to_stream_id : Z) : Txn unit :=
  txn_write (λ d,
    {| devices := devices d;
       device_inbox :=
         delete_from_device_inbox (device_inbox d) user_id device_id
           up_to_stream_id;
       device_federation_outbox := device_federation_outbox d;
       device_federation_inbox := device_federation_inbox d |}).

Definition delete_messages_for_device (user_id device_id : string)
    (up_to_stream_id : Z) (budget : option nat) (s : DeviceInboxStore)
  : outcome unit * DeviceInboxStore :=
  let '(r, d) :=
    runInteraction
      (delete_messages_for_device_txn user_id device_id up_to_stream_id)
      budget (database s) in
  (r, MkStore d (device_inbox_id_gen s) (device_inbox_stream_cache s)
        (device_federation_outbox_stream_cache s)).

Definition delete_messages_for_remote_destination_txn (destination : string)
    (up_to_stream_id : Z) : Txn unit :=
  txn_write (λ d,
    {| devices := devices d;
       device_inbox := device_inbox d;
       device_federation_outbox :=
         delete_from_device_federation_outbox (device_federation_outbox d)
           destination up_to_stream_id;
       device_federation_inbox := device_federation_inbox d |}).

Definition delete_device_msgs_for_remote (destination : string)
    (up_to_stream_id : Z) (budget : option nat) (s : DeviceInboxStore)
  : outcome unit * DeviceInboxStore :=
  let '(r, d) :=
    runInteraction
      (delete_messages_for_remote_destination_txn destination up_to_stream_id)
      budget (database s) in
  (r, MkStore d (device_inbox_id_gen s) (device_inbox_stream_cache s)
        (device_federation_outbox_stream_cache s)).

(** ** Histories *)

(** What can happen to the store: a call of one of its four writing
    methods, or the device store rewriting the [devices] table. *)
Inductive op (json : Type) :=
  | Enqueue (local_messages_by_user_then_device : gmap string (gmap string json))
            (remote_messages_by_destination : gmap string json)
            (now_ms : Z) (budget : option nat)
  | IngestRemote (origin message_id : string)
                 (local_messages_by_user_then_device :
                    gmap string (gmap string json))
                 (now_ms : Z) (budget : option nat)
  | DeleteForDevice (user_id device_id : string) (up_to_stream_id : Z)
                    (budget : option nat)
  | DeleteForRemote (destination : string) (up_to_stream_id : Z)
                    (budget : option nat)
  | DevicesChange (tbl : list (string * string)).
Arguments Enqueue {json}.
Arguments IngestRemote {json}.
Arguments DeleteForDevice {json}.
Arguments DeleteForRemote {json}.
Arguments DevicesChange {json}.

Definition run_op {json} (ujson_dumps : json → string) (o : op json)
    (s : DeviceInboxStore) : DeviceInboxStore :=
  match o with
  | Enqueue local remote now_ms budget =>
      (add_messages_to_device_inbox ujson_dumps local remote now_ms budget s).2
  | IngestRemote origin message_id local now_ms budget =>
      (add_messages_from_remote_to_device_inbox ujson_dumps origin message_id
         local now_ms budget s).2
  | DeleteForDevice user_id device_id up_to_stream_id budget =>
      (delete_messages_for_device user_id device_id up_to_stream_id budget s).2
  | DeleteForRemote destination up_to_stream_id budget =>
      (delete_device_msgs_for_remote destination up_to_stream_id budget s).2
  | DevicesChange tbl =>
      MkStore
        {| devices := tbl;
           device_inbox := device_inbox (database s);
           device_federation_outbox := device_federation_outbox (database s);
           device_federation_inbox := device_federation_inbox (database s) |}
        (device_inbox_id_gen s) (device_inbox_stream_cache s)
        (device_federation_outbox_stream_cache s)
  end.

Definition run_ops {json} (ujson_dumps : json → string) (ops : list (op json))
    (s : DeviceInboxStore) : DeviceInboxStore :=
  foldl (λ s o, run_op ujson_dumps o s) s ops.

(** A store the methods can have produced: some history, run on a store
    with nothing queued yet. *)
Definition reachable {json} (ujson_dumps : json → string)
    (s : DeviceInboxStore) : Prop :=
  ∃ ops dv fi gen cache_i cache_o,
    s = run_ops ujson_dumps ops
          (MkStore (MkDatabase dv [] [] fi) gen cache_i cache_o).

(** ** Invariants of the store *)

(** Every stored position has been handed out by the generator. *)
Definition positions_issued (s : DeviceInboxStore) : Prop :=
  Forall (λ r, di_stream_id r ≤ get_current_token (device_inbox_id_gen s))
         (device_inbox (database s))
  ∧ Forall (λ r, fo_stream_id r ≤ get_current_token (device_inbox_id_gen s))
           (device_federation_outbox (database s)).

(** A device holds at most one message per position, and so does a
    destination. *)
Definition positions_unique (s : DeviceInboxStore) : Prop :=
  NoDup ((λ r, (di_user_id r, di_device_id r, di_stream_id r))
           <$> device_inbox (database s))
  ∧ NoDup ((λ r, (fo_destination r, fo_stream_id r))
             <$> device_federation_outbox (database s)).

(** The cache never answers "unchanged" for an entity that has a row
    after the position asked about. *)
Definition no_false_negatives (cache : gmap string Z)
    (changes : list (string * Z)) : Prop :=
  ∀ entity stream_id pos,
    (entity, stream_id) ∈ changes → pos < stream_id →
    has_entity_changed cache entity pos = true.

Definition caches_sound (s : DeviceInboxStore) : Prop :=
  no_false_negatives (device_inbox_stream_cache s)
    ((λ r, (di_user_id r, di_stream_id r)) <$> device_inbox (database s))
  ∧ no_false_negatives (device_federation_outbox_stream_cache s)
      ((λ r, (fo_destination r, fo_stream_id r))
         <$> device_federation_outbox (database s)).

Definition store_inv (s : DeviceInboxStore) : Prop :=
  positions_issued s ∧ positions_unique s ∧ caches_sound s.

(** ** Describing what a transaction function does *)

(** What issuing [n] statements does to a budget; [None] when the engine
    raises before the last of them. *)
Definition charge (n : nat) (budget : option nat) : option (option nat) :=
  match budget with
  | None => Some None
  | Some k => if decide (n ≤ k)%nat then Some (Some (k - n)%nat) else None
  end.

(** [func] issues [n d] statements when started on database [d]; if the
    engine lets them all through, it leaves [w d] as the working copy and
    returns [v d]; it raises nothing of its own. *)
Definition txn_runs {A} (func : Txn A) (n : Database → nat)
    (w : Database → Database) (v : Database → A) : Prop :=
  ∀ d budget,
    func (MkTxn d budget)
    = match charge (n d) budget with
      | Some budget' => Returned (v d, MkTxn (w d) budget')
      | None => Raised DatabaseError
      end.

(** The set collected by the first loop of
    [_add_messages_to_local_device_inbox_txn]. *)
Definition devices_found {V} (tbl : list (string * string))
    (items : list (string * gmap string V)) (acc : gset (string * string))
  : gset (string * string) :=
  foldl (λ acc '(user_id, messages_by_device),
           acc ∪ list_to_set
                   (select_devices tbl user_id
                      (map_to_list messages_by_device).*1))
        acc items.

(** The pair [(origin, message_id)] has a row in
    [device_federation_inbox]. *)
Definition recorded (d : Database) (origin message_id : string) : Prop :=
  Exists (λ r, fi_origin r = origin ∧ fi_message_id r = message_id)
         (device_federation_inbox d).

#[global] Instance recorded_dec d origin message_id :
  Decision (recorded d origin message_id).
Proof. unfold recorded. apply _. Defined.

(** Where [entity_has_changed] leaves an entry. *)
Definition marked_at (stream_id : Z) (before : option Z) : option Z :=
  Some match before with
       | Some old_pos => Z.max stream_id old_pos
       | None => stream_id
       end.

(** ** A small server, for running the methods *)

Module Sample.

Open Scope string_scope.

(** Bodies are kept as their own text. *)
Definition dumps (j : string) : string := j.
Definition loads (t : string) : string := t.

Definition empty_store : DeviceInboxStore :=
  MkStore
    (MkDatabase [("alice", "dev1"); ("alice", "dev2"); ("carol", "phone")]
                [] [] [])
    (MkIdGen 0) ∅ ∅.

Definition enqueue := add_messages_to_device_inbox dumps.
Definition ingest_remote := add_messages_from_remote_to_device_inbox dumps.
Definition read := get_new_messages_for_device loads.
Definition read_remote := get_new_device_msgs_for_remote loads.

(** One body for a single device of a single user. *)
Definition to_device (user_id device_id body : string)
  : gmap string (gmap string string) :=
  {[ user_id := {[ device_id := body ]} ]}.

(** alice's two devices and bob's (unknown) tablet, and one remote server. *)
Definition fan_out : gmap string (gmap string string) :=
  <[ "alice" := <[ "dev1" := "k1" ]> {[ "dev2" := "k2" ]} ]>
    {[ "bob" := {[ "tablet" := "k3" ]} ]}.

Definition relay : gmap string string := {[ "remote.example" := "edu" ]}.

(** Positions 1 and 2 get one message each for (alice, dev1), position 3
    the fan-out. *)
Definition history : list (op string) :=
  [ Enqueue (to_device "alice" "dev1" "m1") ∅ 10 None;
    Enqueue (to_device "alice" "dev1" "m2") ∅ 20 None;
    Enqueue fan_out relay 30 None ].

Definition busy_store : DeviceInboxStore := run_ops dumps history empty_store.

(** The store before the fan-out. *)
Definition two_messages : DeviceInboxStore :=
  run_ops dumps (take 2 history) empty_store.

(** A first delivery of a remote batch, and the store after it. *)
Definition remote_batch : gmap string (gmap string string) :=
  to_device "carol" "phone" "hello".

Definition delivered_once : DeviceInboxStore :=
  (ingest_remote "serverA" "msg-1" remote_batch 100 None empty_store).2.

(** alice's first device has acknowledged everything up to position 2. *)
Definition trimmed : DeviceInboxStore :=
  (delete_messages_for_device "alice" "dev1" 2 None busy_store).2.

(** The remote server has acknowledged everything up to position 3. *)
Definition relayed : DeviceInboxStore :=
  (delete_device_msgs_for_remote "remote.example" 3 None busy_store).2.

(** Two more batches for the remote server, after the fan-out. *)
Definition more_relay : list (op string) :=
  [ Enqueue ∅ {[ "remote.example" := "edu2" ]} 40 None;
    Enqueue ∅ {[ "remote.example" := "edu3" ]} 50 None ].

Definition relay_store : DeviceInboxStore :=
  run_ops dumps (history ++ more_relay) empty_store.

End Sample.

(** * Properties *)

(** Unfolding a read-only transaction down to its statements. *)
Ltac unfold_read_txn :=
  unfold runInteraction, get_new_messages_for_device_txn,
    get_new_messages_for_remote_destination_txn,
    get_all_new_device_messages_txn, txn_bind, txn_read, statement, txn_ret,
    txn_raise.

(** One case per kind of step of a history. *)
Ltac destruct_op o :=
  destruct o as [local remote now_ms budget
                |origin message_id local now_ms budget
                |u dev upto budget
                |dest upto budget
                |tbl];
  unfold run_op.

(** ** [ORDER BY] *)

Section order_by.
Context {A : Type} (key : A → Z).
Implicit Types (x y : A) (l : list A).

Lemma insert_by_perm x l : insert_by key x l ≡ₚ x :: l.
Proof.
  induction l as [|y l IH]; simpl; [done|].
  case_decide; [done|]. rewrite IH. apply Permutation_swap.
Qed.

Lemma order_by_perm l : order_by key l ≡ₚ l.
Proof.
  induction l as [|x l IH]; simpl; [done|].
  by rewrite insert_by_perm, IH.
Qed.

Lemma elem_of_order_by x l : x ∈ order_by key l ↔ x ∈ l.
Proof. by rewrite order_by_perm. Qed.

Lemma length_order_by l : length (order_by key l) = length l.
Proof. by rewrite order_by_perm. Qed.

Lemma order_by_nil_inv l : order_by key l = [] → l = [].
Proof.
  intros H. apply Permutation_nil_r. rewrite <- H. symmetry. apply order_by_perm.
Qed.

Lemma insert_by_sorted x l :
  StronglySorted (λ a b, key a ≤ key b) l →
  StronglySorted (λ a b, key a ≤ key b) (insert_by key x l).
Proof.
  induction 1 as [|y l Hl IH Hy]; simpl.
  - repeat constructor.
  - case_decide as Hxy.
    + constructor; [by constructor|].
      constructor; [done|]. eapply Forall_impl; [exact Hy|]. simpl. lia.
    + constructor; [done|]. rewrite insert_by_perm.
      constructor; [lia|done].
Qed.

Lemma order_by_sorted l : StronglySorted (λ a b, key a ≤ key b) (order_by key l).
Proof.
  induction l; simpl; [constructor|]. by apply insert_by_sorted.
Qed.

Lemma insert_by_least x l :
  Forall (λ y, key x ≤ key y) l → insert_by key x l = x :: l.
Proof. destruct 1; simpl; [done|]. by rewrite decide_True. Qed.

Lemma filter_insert_by (P : A → Prop) `{!∀ x, Decision (P x)} x l :
  StronglySorted (λ a b, key a ≤ key b) l →
  filter P (insert_by key x l)
  = if decide (P x) then insert_by key x (filter P l) else filter P l.
Proof.
  induction 1 as [|y l Hl IH Hy]; simpl.
  - rewrite filter_cons, filter_nil. by case_decide.
  - destruct (decide (key x ≤ key y)) as [Hxy|Hxy].
    + rewrite filter_cons. destruct (decide (P x)); [|done].
      rewrite insert_by_least; [done|].
      apply Forall_forall. intros z [_ Hz]%list_elem_of_filter.
      apply elem_of_cons in Hz as [->|Hz]; [done|].
      rewrite Forall_forall in Hy. specialize (Hy _ Hz). simpl in Hy. lia.
    + rewrite !(filter_cons _ y), IH.
      destruct (decide (P x)), (decide (P y)); simpl; try done.
      by rewrite decide_False.
Qed.

(** Filtering commutes with a stable sort. *)
Lemma order_by_filter (P : A → Prop) `{!∀ x, Decision (P x)} l :
  order_by key (filter P l) = filter P (order_by key l).
Proof.
  induction l as [|x l IH]; simpl; [done|].
  rewrite filter_insert_by by apply order_by_sorted.
  rewrite filter_cons. case_decide; simpl; by rewrite IH.
Qed.

Lemma sorted_strict l :
  StronglySorted (λ a b, key a ≤ key b) l → NoDup (key <$> l) →
  StronglySorted (λ a b, key a < key b) l.
Proof.
  induction 1 as [|x l Hl IH Hx]; intros Hnd; [constructor|].
  rewrite fmap_cons in Hnd. apply NoDup_cons in Hnd as [Hnotin Hnd].
  constructor; [by apply IH|].
  apply Forall_forall. intros y Hy.
  rewrite Forall_forall in Hx. specialize (Hx _ Hy). simpl in Hx.
  assert (key x ≠ key y); [|lia].
  intros Heq. apply Hnotin. rewrite Heq. by apply list_elem_of_fmap_2.
Qed.

(** Cutting a strictly sorted list after the element [x] is the same as
    keeping what lies beyond [x]. *)
Lemma sorted_strict_beyond l1 x l2 :
  StronglySorted (λ a b, key a < key b) (l1 ++ x :: l2) →
  filter (λ y, key x < key y) (l1 ++ x :: l2) = l2.
Proof.
  intros Hs. apply StronglySorted_app in Hs as (Hcross & _ & Hs2).
  apply StronglySorted_cons in Hs2 as [Hx _].
  rewrite filter_app, filter_cons, decide_False by lia.
  replace (filter (λ y, key x < key y) l1) with (@nil A).
  - simpl. induction l2 as [|y l2 IH]; [done|].
    apply Forall_cons in Hx as [Hy Hx].
    rewrite filter_cons, decide_True by done. f_equal. apply IH; [|done].
    intros a b Ha Hb. apply Hcross; [exact Ha|].
    apply elem_of_cons in Hb as [->|Hb]; [by left|]. right. by right.
  - symmetry. induction l1 as [|y l1 IH]; [done|].
    rewrite filter_cons, decide_False.
    + apply IH. intros a b Ha Hb. apply Hcross; [|done]. by right.
    + assert (key y < key x); [|lia]. apply Hcross; by left.
Qed.

End order_by.

(** ** Transactions *)

Lemma charge_add n1 n2 budget :
  charge (n1 + n2) budget
  = match charge n1 budget with
    | Some budget' => charge n2 budget'
    | None => None
    end.
Proof.
  destruct budget as [k|]; simpl; [|done].
  destruct (decide (n1 + n2 ≤ k)%nat), (decide (n1 ≤ k)%nat); simpl;
    try destruct (decide (n2 ≤ k - n1)%nat); try done; try lia.
  do 2 f_equal. lia.
Qed.

Lemma statement_runs : txn_runs statement (λ _, 1%nat) (λ d, d) (λ _, ()).
Proof.
  intros d [[|k]|]; unfold statement, charge; cbn [txn_budget txn_db].
  - destruct (decide (1 ≤ 0)%nat); [lia|done].
  - destruct (decide (1 ≤ S k)%nat); [|lia]. repeat f_equal. lia.
  - done.
Qed.

Lemma txn_ret_runs {A} (a : A) : txn_runs (txn_ret a) (λ _, 0%nat) (λ d, d) (λ _, a).
Proof.
  intros d [k|]; unfold txn_ret, charge; [|done].
  destruct (decide (0 ≤ k)%nat); [|lia]. repeat f_equal. lia.
Qed.

Lemma txn_bind_runs {A B} (m : Txn A) (k : A → Txn B) n1 w1 v1 n2 w2 v2 :
  txn_runs m n1 w1 v1 →
  (∀ a, txn_runs (k a) (n2 a) (w2 a) (v2 a)) →
  txn_runs (txn_bind m k)
    (λ d, (n1 d + n2 (v1 d) (w1 d))%nat)
    (λ d, w2 (v1 d) (w1 d))
    (λ d, v2 (v1 d) (w1 d)).
Proof.
  intros Hm Hk d budget. unfold txn_bind.
  rewrite Hm, charge_add. destruct (charge (n1 d) budget); [|done].
  apply Hk.
Qed.

Lemma txn_runs_ext {A} (f : Txn A) n w v n' w' v' :
  txn_runs f n w v →
  (∀ d, n d = n' d) → (∀ d, w d = w' d) → (∀ d, v d = v' d) →
  txn_runs f n' w' v'.
Proof.
  intros Hf Hn Hw Hv d budget. rewrite Hf, Hn, Hw, Hv. done.
Qed.

Lemma txn_read_runs {A} (q : Database → A) :
  txn_runs (txn_read q) (λ _, 1%nat) (λ d, d) q.
Proof.
  intros d budget. unfold txn_read, txn_bind.
  rewrite statement_runs. by destruct (charge 1 budget).
Qed.

Lemma txn_write_runs (w : Database → Database) :
  txn_runs (txn_write w) (λ _, 1%nat) w (λ _, ()).
Proof.
  intros d budget. unfold txn_write, txn_bind.
  rewrite statement_runs. by destruct (charge 1 budget).
Qed.

(** Commit or roll back. *)
Lemma runInteraction_runs {A} (func : Txn A) n w v budget d :
  txn_runs func n w v →
  runInteraction func budget d
  = match charge (S (n d)) budget with
    | Some _ => (Returned (v d), w d)
    | None => (Raised DatabaseError, d)
    end.
Proof.
  intros Hf. unfold runInteraction, txn_bind.
  rewrite Hf. replace (S (n d)) with (n d + 1)%nat by lia. rewrite charge_add.
  destruct (charge (n d) budget) as [b'|]; [|done].
  rewrite statement_runs. by destruct (charge 1 b').
Qed.

Lemma charge_healthy n : charge n None = Some None.
Proof. done. Qed.

Lemma insert_device_inbox_nil d : insert_device_inbox [] d = d.
Proof. destruct d. unfold insert_device_inbox. simpl. by rewrite app_nil_r. Qed.

Lemma insert_device_federation_outbox_nil d :
  insert_device_federation_outbox [] d = d.
Proof.
  destruct d. unfold insert_device_federation_outbox. simpl. by rewrite app_nil_r.
Qed.

(** ** The write path *)

Section write_path.
Context {json : Type} (ujson_dumps : json → string).
Implicit Types (m : gmap string (gmap string json)) (remote : gmap string json).

Lemma elem_of_devices_found tbl (items : list (string * gmap string json)) acc u dev :
  (u, dev) ∈ devices_found tbl items acc ↔
  (u, dev) ∈ acc ∨
  ∃ mbd, (u, mbd) ∈ items ∧ (u, dev) ∈ tbl ∧ is_Some (mbd !! dev).
Proof.
  unfold devices_found. revert acc.
  induction items as [|[u' mbd'] items IH]; intros acc; simpl.
  - split; [by left|]. intros [?|(? & []%elem_of_nil & _)]; done.
  - rewrite IH, elem_of_union, elem_of_list_to_set.
    unfold select_devices. rewrite list_elem_of_filter. simpl. split.
    + intros [[?|([-> Hdev] & Htbl)]|(mbd & ? & ? & ?)].
      * by left.
      * right. exists mbd'. split; [by left|]. split; [done|].
        apply list_elem_of_fmap in Hdev as ([dev' msg] & -> & Hin).
        apply elem_of_map_to_list in Hin. by exists msg.
      * right. exists mbd. split; [by right|done].
    + intros [?|(mbd & Hin & Htbl & [msg Hmsg])]; [by left; left|].
      apply elem_of_cons in Hin as [[= -> ->]|Hin].
      * left. right. split; [|done]. split; [done|].
        apply list_elem_of_fmap. exists (dev, msg). split; [done|].
        by apply elem_of_map_to_list.
      * right. by exists mbd.
Qed.

Lemma local_inbox_rows_found tbl stream_id m :
  local_inbox_rows ujson_dumps (devices_found tbl (map_to_list m) ∅) stream_id m
  = expected_local_rows ujson_dumps tbl stream_id m.
Proof.
  unfold local_inbox_rows, expected_local_rows.
  apply Forall_bind_ext, Forall_forall. intros [u mbd] Hu.
  apply Forall_bind_ext, Forall_forall. intros [dev msg] Hdev.
  apply elem_of_map_to_list in Hdev.
  assert ((u, dev) ∈ devices_found tbl (map_to_list m) ∅ ↔ (u, dev) ∈ tbl) as Hiff.
  { rewrite elem_of_devices_found. split.
    - intros [[]%not_elem_of_empty|(? & ? & ? & ?)]; done.
    - intros ?. right. exists mbd. by rewrite Hdev. }
  destruct (decide ((u, dev) ∈ devices_found tbl (map_to_list m) ∅)),
    (decide ((u, dev) ∈ tbl)); try done; tauto.
Qed.

Lemma devices_loop_runs (items : list (string * gmap string json)) acc :
  txn_runs
    (txn_for items
       (λ '(user_id, messages_by_device) (acc : gset (string * string)),
          let device_ids := (map_to_list messages_by_device).*1 in
          fetched ←← txn_read (λ d, select_devices (devices d) user_id device_ids) ;;
          txn_ret (acc ∪ list_to_set fetched))
       acc)
    (λ _, length items) (λ d, d) (λ d, devices_found (devices d) items acc).
Proof.
  revert acc. induction items as [|[u mbd] items IH]; intros acc; simpl.
  - apply txn_ret_runs.
  - eapply txn_runs_ext.
    + eapply txn_bind_runs; [|intros a; apply IH].
      eapply txn_bind_runs; [apply txn_read_runs|].
      intros fetched. apply txn_ret_runs.
    + done.
    + done.
    + done.
Qed.

Lemma _add_messages_to_local_device_inbox_txn_runs stream_id m :
  txn_runs (_add_messages_to_local_device_inbox_txn ujson_dumps stream_id m)
    (λ _, S (size m))
    (λ d, insert_device_inbox
            (expected_local_rows ujson_dumps (devices d) stream_id m) d)
    (λ _, ()).
Proof.
  unfold _add_messages_to_local_device_inbox_txn.
  eapply txn_runs_ext.
  - eapply txn_bind_runs; [apply devices_loop_runs|].
    intros found. apply txn_write_runs.
  - intros d. simpl. rewrite length_map_to_list. lia.
  - intros d. simpl. by rewrite local_inbox_rows_found.
  - done.
Qed.

Lemma add_messages_to_device_inbox_txn_runs m remote now_ms stream_id :
  txn_runs
    (add_messages_to_device_inbox_txn ujson_dumps m remote now_ms stream_id)
    (λ _, S (S (size m)))
    (λ d, insert_device_federation_outbox
            (federation_outbox_rows ujson_dumps stream_id now_ms remote)
            (insert_device_inbox
               (expected_local_rows ujson_dumps (devices d) stream_id m) d))
    (λ _, ()).
Proof.
  unfold add_messages_to_device_inbox_txn.
  eapply txn_runs_ext.
  - eapply txn_bind_runs;
      [apply _add_messages_to_local_device_inbox_txn_runs|].
    intros ?. apply txn_write_runs.
  - intros d. simpl. lia.
  - done.
  - done.
Qed.

End write_path.

(** ** The rows of a batch *)

Section batch_rows.
Context {json : Type} (ujson_dumps : json → string).
Implicit Types (m : gmap string (gmap string json)) (remote : gmap string json).

Lemma elem_of_expected_local_rows tbl stream_id m row :
  row ∈ expected_local_rows ujson_dumps tbl stream_id m ↔
  ∃ u mbd dev msg,
    m !! u = Some mbd ∧ mbd !! dev = Some msg ∧ (u, dev) ∈ tbl
    ∧ row = DeviceInboxRow u dev stream_id (ujson_dumps msg).
Proof.
  unfold expected_local_rows. rewrite list_elem_of_bind. split.
  - intros ([u mbd] & Hrow & Hu). apply elem_of_map_to_list in Hu.
    apply list_elem_of_bind in Hrow as ([dev msg] & Hrow & Hdev).
    apply elem_of_map_to_list in Hdev.
    destruct (decide ((u, dev) ∈ tbl)); [|by apply elem_of_nil in Hrow].
    apply list_elem_of_singleton in Hrow. by exists u, mbd, dev, msg.
  - intros (u & mbd & dev & msg & Hu & Hdev & Htbl & ->).
    exists (u, mbd). split; [|by apply elem_of_map_to_list].
    apply list_elem_of_bind. exists (dev, msg).
    split; [|by apply elem_of_map_to_list].
    rewrite decide_True by done. by apply list_elem_of_singleton.
Qed.

Lemma expected_local_rows_stream_id tbl stream_id m :
  Forall (λ r, di_stream_id r = stream_id)
         (expected_local_rows ujson_dumps tbl stream_id m).
Proof.
  apply Forall_forall. intros row Hrow.
  apply elem_of_expected_local_rows in Hrow as (? & ? & ? & ? & _ & _ & _ & ->).
  done.
Qed.

Lemma fmap_list_bind {A B C} (g : B → C) (f : A → list B) (l : list A) :
  g <$> (l ≫= f) = l ≫= λ x, g <$> f x.
Proof.
  induction l as [|x l IH]; [done|].
  by rewrite !bind_cons, fmap_app, IH.
Qed.

(** A batch holds at most one row per device. *)
Lemma expected_local_rows_NoDup tbl stream_id m :
  NoDup ((λ r, (di_user_id r, di_device_id r))
           <$> expected_local_rows ujson_dumps tbl stream_id m).
Proof.
  unfold expected_local_rows. rewrite fmap_list_bind.
  apply NoDup_bind; [| |apply NoDup_map_to_list].
  - intros [u1 mbd1] [u2 mbd2] key H1%elem_of_map_to_list H2%elem_of_map_to_list.
    simpl. rewrite !list_elem_of_fmap.
    intros (r1 & -> & Hr1) (r2 & Heq & Hr2).
    apply list_elem_of_bind in Hr1 as ([dev1 msg1] & Hr1 & _).
    apply list_elem_of_bind in Hr2 as ([dev2 msg2] & Hr2 & _).
    destruct (decide ((u1, dev1) ∈ tbl)); [|by apply elem_of_nil in Hr1].
    destruct (decide ((u2, dev2) ∈ tbl)); [|by apply elem_of_nil in Hr2].
    apply list_elem_of_singleton in Hr1 as ->.
    apply list_elem_of_singleton in Hr2 as ->.
    simpl in Heq. injection Heq as -> ->. congruence.
  - intros [u mbd] _. simpl. rewrite fmap_list_bind.
    apply NoDup_bind; [| |apply NoDup_map_to_list].
    + intros [dev1 msg1] [dev2 msg2] key
        H1%elem_of_map_to_list H2%elem_of_map_to_list. simpl.
      destruct (decide ((u, dev1) ∈ tbl)); [|by intros ?%elem_of_nil].
      destruct (decide ((u, dev2) ∈ tbl)); [|by intros _ ?%elem_of_nil].
      rewrite !list_fmap_singleton, !list_elem_of_singleton. simpl.
      intros -> [= ->]. congruence.
    + intros [dev msg] _. simpl. case_decide; [|constructor].
      rewrite list_fmap_singleton. apply NoDup_singleton.
Qed.

Lemma elem_of_federation_outbox_rows stream_id now_ms remote row :
  row ∈ federation_outbox_rows ujson_dumps stream_id now_ms remote ↔
  ∃ destination edu,
    remote !! destination = Some edu
    ∧ row = FederationOutboxRow destination stream_id now_ms (ujson_dumps edu).
Proof.
  unfold federation_outbox_rows. rewrite list_elem_of_fmap. split.
  - intros ([dest edu] & -> & Hin%elem_of_map_to_list). by exists dest, edu.
  - intros (dest & edu & Hin & ->). exists (dest, edu).
    split; [done|]. by apply elem_of_map_to_list.
Qed.

(** One row per destination. *)
Lemma federation_outbox_rows_destinations stream_id now_ms remote :
  fo_destination <$> federation_outbox_rows ujson_dumps stream_id now_ms remote
  = (map_to_list remote).*1.
Proof.
  unfold federation_outbox_rows. rewrite <- list_fmap_compose.
  apply list_fmap_ext. by intros _ [dest edu] _.
Qed.

Lemma federation_outbox_rows_NoDup stream_id now_ms remote :
  NoDup (fo_destination
           <$> federation_outbox_rows ujson_dumps stream_id now_ms remote).
Proof.
  rewrite federation_outbox_rows_destinations. apply NoDup_fst_map_to_list.
Qed.

(** What [add_messages_to_device_inbox] comes to: three statements plus one
    per addressed user, then either everything or nothing. *)
Lemma add_messages_to_device_inbox_eq m remote now_ms budget s :
  add_messages_to_device_inbox ujson_dumps m remote now_ms budget s
  = let stream_id := get_current_token (device_inbox_id_gen s) + 1 in
    match charge (3 + size m) budget with
    | Some _ =>
        (Returned stream_id,
         MkStore
           (insert_device_federation_outbox
              (federation_outbox_rows ujson_dumps stream_id now_ms remote)
              (insert_device_inbox
                 (expected_local_rows ujson_dumps (devices (database s))
                    stream_id m)
                 (database s)))
           (MkIdGen stream_id)
           (mark_all_changed (map_to_list m).*1 stream_id
              (device_inbox_stream_cache s))
           (mark_all_changed (map_to_list remote).*1 stream_id
              (device_federation_outbox_stream_cache s)))
    | None =>
        (Raised DatabaseError,
         MkStore (database s) (MkIdGen stream_id)
           (device_inbox_stream_cache s)
           (device_federation_outbox_stream_cache s))
    end.
Proof.
  unfold add_messages_to_device_inbox, get_next, get_current_token.
  erewrite runInteraction_runs
    by apply add_messages_to_device_inbox_txn_runs.
  simpl. by destruct (charge _ budget).
Qed.

End batch_rows.

(** ** [add_messages_to_device_inbox] *)

Section enqueue.
Context {json : Type} (ujson_dumps : json → string).
Implicit Types (local : gmap string (gmap string json)) (remote : gmap string json).

(** C2.  [add_messages_to_device_inbox] is all or nothing.  Whatever the
    batch and whatever the storage engine does, the call either raises and
    leaves the database as it was, or returns and has appended to
    [device_inbox] exactly one row per addressed device that exists, and to
    [device_federation_outbox] exactly one row per destination, all of them
    at the one position it took from the generator, which is above every
    position handed out before. *)
Theorem add_messages_to_device_inbox_atomic local remote now_ms budget s :
  let '(result, s') :=
    add_messages_to_device_inbox ujson_dumps local remote now_ms budget s in
  (∃ e, result = Raised e ∧ database s' = database s)
  ∨ (∃ stream_id local_rows remote_rows,
       result = Returned stream_id
       ∧ get_current_token (device_inbox_id_gen s) < stream_id
       ∧ get_next (device_inbox_id_gen s)
         = (stream_id, device_inbox_id_gen s')
       ∧ device_inbox (database s')
         = device_inbox (database s) ++ local_rows
       ∧ device_federation_outbox (database s')
         = device_federation_outbox (database s) ++ remote_rows
       ∧ devices (database s') = devices (database s)
       ∧ device_federation_inbox (database s')
         = device_federation_inbox (database s)
       ∧ (∀ row, row ∈ local_rows ↔
            ∃ user_id messages_by_device device_id message,
              local !! user_id = Some messages_by_device
              ∧ messages_by_device !! device_id = Some message
              ∧ (user_id, device_id) ∈ devices (database s)
              ∧ row = DeviceInboxRow user_id device_id stream_id
                        (ujson_dumps message))
       ∧ NoDup ((λ r, (di_user_id r, di_device_id r)) <$> local_rows)
       ∧ (∀ row, row ∈ remote_rows ↔
            ∃ destination edu,
              remote !! destination = Some edu
              ∧ row = FederationOutboxRow destination stream_id now_ms
                        (ujson_dumps edu))
       ∧ NoDup (fo_destination <$> remote_rows)).
Proof.
  rewrite add_messages_to_device_inbox_eq. cbv zeta.
  destruct (charge _ budget) as [?|].
  - right. eexists _, _, _. split; [done|]. simpl.
    split; [unfold get_current_token; lia|].
    split; [done|]. split; [done|]. split; [done|]. split; [done|].
    split; [done|].
    split; [intros row; apply elem_of_expected_local_rows|].
    split; [apply expected_local_rows_NoDup|].
    split; [intros row; apply elem_of_federation_outbox_rows|].
    apply federation_outbox_rows_NoDup.
  - left. by eexists.
Qed.

(** C7.  When [add_messages_to_device_inbox] returns, what it returns is
    the position it reserved for the batch: the one [get_next] handed out,
    the one every row of the batch carries in both tables, and the current
    token of the stream from then on. *)
Theorem add_messages_to_device_inbox_returns_position
    local remote now_ms budget s stream_id s' :
  add_messages_to_device_inbox ujson_dumps local remote now_ms budget s
  = (Returned stream_id, s') →
  (get_next (device_inbox_id_gen s)).1 = stream_id
  ∧ get_to_device_stream_token s' = stream_id
  ∧ ∃ local_rows remote_rows,
      device_inbox (database s') = device_inbox (database s) ++ local_rows
      ∧ device_federation_outbox (database s')
        = device_federation_outbox (database s) ++ remote_rows
      ∧ Forall (λ r, di_stream_id r = stream_id) local_rows
      ∧ Forall (λ r, fo_stream_id r = stream_id) remote_rows
      ∧ (λ r, (di_user_id r, di_device_id r)) <$> local_rows
        = (λ r, (di_user_id r, di_device_id r))
            <$> expected_local_rows ujson_dumps (devices (database s))
                  stream_id local
      ∧ fo_destination <$> remote_rows = (map_to_list remote).*1.
Proof.
  rewrite add_messages_to_device_inbox_eq. cbv zeta.
  destruct (charge _ budget) as [?|]; [|done].
  intros [= <- <-]. split; [done|]. split; [done|].
  eexists _, _. simpl. split; [done|]. split; [done|].
  split; [apply expected_local_rows_stream_id|].
  split.
  - apply Forall_forall. intros row Hrow.
    by apply elem_of_federation_outbox_rows in Hrow as (? & ? & _ & ->).
  - split; [done|]. apply federation_outbox_rows_destinations.
Qed.

(** C8.  With both maps empty [add_messages_to_device_inbox] raises
    nothing of its own: on a healthy storage engine it takes the next
    position from the generator and returns it, and the database and both
    caches are exactly what they were.  Whatever the engine does, the store
    ends up the same: the position is spent and no row is written. *)
Theorem add_messages_to_device_inbox_empty now_ms s :
  let stream_id := get_current_token (device_inbox_id_gen s) + 1 in
  let s' :=
    MkStore (database s) (MkIdGen stream_id) (device_inbox_stream_cache s)
      (device_federation_outbox_stream_cache s) in
  add_messages_to_device_inbox ujson_dumps ∅ ∅ now_ms None s
  = (Returned stream_id, s')
  ∧ ∀ budget,
      add_messages_to_device_inbox ujson_dumps ∅ ∅ now_ms budget s
      = (match charge 3 budget with
         | Some _ => Returned stream_id
         | None => Raised DatabaseError
         end, s').
Proof.
  cbv zeta.
  assert (∀ budget,
            add_messages_to_device_inbox ujson_dumps ∅ ∅ now_ms budget s
            = (match charge 3 budget with
               | Some _ =>
                   Returned (get_current_token (device_inbox_id_gen s) + 1)
               | None => Raised DatabaseError
               end,
               MkStore (database s)
                 (MkIdGen (get_current_token (device_inbox_id_gen s) + 1))
                 (device_inbox_stream_cache s)
                 (device_federation_outbox_stream_cache s))) as Hany.
  { intros budget. rewrite add_messages_to_device_inbox_eq. cbv zeta.
    rewrite map_size_empty.
    unfold expected_local_rows, federation_outbox_rows.
    rewrite !map_to_list_empty. simpl.
    rewrite insert_device_inbox_nil, insert_device_federation_outbox_nil.
    by destruct (charge 3 budget). }
  split; [|exact Hany]. by rewrite Hany.
Qed.

End enqueue.

(** ** The stream-change cache *)

Lemma lookup_entity_has_changed entity stream_pos cache e :
  entity_has_changed entity stream_pos cache !! e
  = if decide (e = entity) then marked_at stream_pos (cache !! e)
    else cache !! e.
Proof.
  unfold entity_has_changed. case_decide as He.
  - subst e. by rewrite lookup_insert_eq.
  - by rewrite lookup_insert_ne.
Qed.

Lemma marked_at_idemp stream_id before :
  marked_at stream_id (marked_at stream_id before) = marked_at stream_id before.
Proof. unfold marked_at. destruct before; f_equal; lia. Qed.

Lemma lookup_mark_all_changed entities stream_id cache e :
  mark_all_changed entities stream_id cache !! e
  = if decide (e ∈ entities) then marked_at stream_id (cache !! e)
    else cache !! e.
Proof.
  unfold mark_all_changed. revert cache.
  induction entities as [|x xs IH]; intros cache; cbn [foldl].
  - destruct (decide (e ∈ [])) as [[]%elem_of_nil|]; done.
  - rewrite IH, lookup_entity_has_changed.
    destruct (decide (e ∈ x :: xs)) as [Hin|Hnin], (decide (e ∈ xs)),
      (decide (e = x)); subst; try done.
    + apply marked_at_idemp.
    + by apply elem_of_cons in Hin as [?|?].
    + exfalso. apply Hnin. by right.
    + exfalso. apply Hnin. by right.
    + exfalso. apply Hnin. by left.
Qed.

Lemma has_entity_changed_marked stream_id before cache e pos :
  cache !! e = marked_at stream_id before → pos < stream_id →
  has_entity_changed cache e pos = true.
Proof.
  unfold has_entity_changed, marked_at. intros -> Hpos.
  apply bool_decide_eq_true. destruct before; lia.
Qed.

Lemma has_entity_changed_mono cache cache' e pos :
  (∀ latest, cache !! e = Some latest →
     ∃ latest', cache' !! e = Some latest' ∧ latest ≤ latest') →
  has_entity_changed cache e pos = true →
  has_entity_changed cache' e pos = true.
Proof.
  unfold has_entity_changed. intros Hle.
  destruct (cache !! e) as [latest|]; [|done].
  destruct (Hle latest) as (latest' & -> & ?); [done|].
  rewrite !bool_decide_eq_true. lia.
Qed.

Lemma has_entity_changed_mark_all entities stream_id cache e pos :
  has_entity_changed cache e pos = true →
  has_entity_changed (mark_all_changed entities stream_id cache) e pos = true.
Proof.
  apply has_entity_changed_mono. intros latest Hl.
  rewrite lookup_mark_all_changed, Hl. case_decide; [|by eexists].
  unfold marked_at. eexists. split; [done|]. lia.
Qed.

Lemma elem_of_keys {V} (m : gmap string V) k :
  k ∈ (map_to_list m).*1 ↔ is_Some (m !! k).
Proof.
  rewrite list_elem_of_fmap. split.
  - intros ([k' v] & -> & Hin%elem_of_map_to_list). by exists v.
  - intros [v Hv]. exists (k, v). split; [done|]. by apply elem_of_map_to_list.
Qed.

(** ** [add_messages_from_remote_to_device_inbox] *)

Section ingest.
Context {json : Type} (ujson_dumps : json → string).
Implicit Types (local : gmap string (gmap string json)).

Lemma select_one_recorded d origin message_id :
  is_Some
    (fi_message_id <$>
       head (filter (λ r, fi_origin r = origin ∧ fi_message_id r = message_id)
                    (device_federation_inbox d)))
  ↔ recorded d origin message_id.
Proof.
  unfold recorded. rewrite fmap_is_Some, Exists_exists. split.
  - intros [r Hr]. apply head_Some_elem_of, list_elem_of_filter in Hr.
    exists r. tauto.
  - intros (r & Hin & HP).
    destruct (filter _ (device_federation_inbox d)) as [|r' l] eqn:Hf.
    + exfalso. by eapply (filter_nil_not_elem_of _ _ r Hf).
    + by exists r'.
Qed.

Lemma recorded_insert_inbox d origin message_id received_ts rows :
  recorded
    (insert_device_inbox rows
       (insert_device_federation_inbox
          [FederationInboxRow origin message_id received_ts] d))
    origin message_id.
Proof.
  unfold recorded. simpl. apply Exists_app. right. by left.
Qed.

Lemma add_messages_from_remote_to_device_inbox_txn_runs
    origin message_id local now_ms stream_id :
  txn_runs
    (add_messages_from_remote_to_device_inbox_txn ujson_dumps origin message_id
       local now_ms stream_id)
    (λ d, if decide (recorded d origin message_id) then 1%nat
          else (3 + size local)%nat)
    (λ d, if decide (recorded d origin message_id) then d
          else insert_device_inbox
                 (expected_local_rows ujson_dumps (devices d) stream_id local)
                 (insert_device_federation_inbox
                    [FederationInboxRow origin message_id now_ms] d))
    (λ _, ()).
Proof.
  unfold add_messages_from_remote_to_device_inbox_txn, _simple_select_one_txn,
    _simple_insert_txn.
  eapply txn_runs_ext.
  - eapply (txn_bind_runs _ _ _ _ _
              (λ a _, match a with Some _ => 0 | None => 2 + size local end)%nat
              (λ (a : option string) d,
                 match a with
                 | Some _ => d
                 | None =>
                     insert_device_inbox
                       (expected_local_rows ujson_dumps (devices d) stream_id
                          local)
                       (insert_device_federation_inbox
                          [FederationInboxRow origin message_id now_ms] d)
                 end)
              (λ _ _, ())); [apply txn_read_runs|].
    intros [x|].
    + apply txn_ret_runs.
    + eapply txn_runs_ext.
      * eapply txn_bind_runs; [apply txn_write_runs|].
        intros ?. apply _add_messages_to_local_device_inbox_txn_runs.
      * done.
      * done.
      * done.
  - intros d. simpl.
    destruct (decide (recorded d origin message_id)) as [Hr|Hr];
      rewrite <- select_one_recorded in Hr.
    + destruct Hr as [x ->]. done.
    + apply eq_None_not_Some in Hr. rewrite Hr. done.
  - intros d. simpl.
    destruct (decide (recorded d origin message_id)) as [Hr|Hr];
      rewrite <- select_one_recorded in Hr.
    + destruct Hr as [x ->]. done.
    + apply eq_None_not_Some in Hr. rewrite Hr. done.
  - done.
Qed.

(** What [add_messages_from_remote_to_device_inbox] comes to. *)
Lemma add_messages_from_remote_to_device_inbox_eq
    origin message_id local now_ms budget s :
  add_messages_from_remote_to_device_inbox ujson_dumps origin message_id local
    now_ms budget s
  = let stream_id := get_current_token (device_inbox_id_gen s) + 1 in
    let d := database s in
    match charge (if decide (recorded d origin message_id) then 2
                  else 4 + size local)%nat budget with
    | Some _ =>
        (Returned (),
         MkStore
           (if decide (recorded d origin message_id) then d
            else insert_device_inbox
                   (expected_local_rows ujson_dumps (devices d) stream_id local)
                   (insert_device_federation_inbox
                      [FederationInboxRow origin message_id now_ms] d))
           (MkIdGen stream_id)
           (mark_all_changed (map_to_list local).*1 stream_id
              (device_inbox_stream_cache s))
           (device_federation_outbox_stream_cache s))
    | None =>
        (Raised DatabaseError,
         MkStore d (MkIdGen stream_id) (device_inbox_stream_cache s)
           (device_federation_outbox_stream_cache s))
    end.
Proof.
  unfold add_messages_from_remote_to_device_inbox, get_next, get_current_token.
  erewrite runInteraction_runs
    by apply add_messages_from_remote_to_device_inbox_txn_runs.
  cbv zeta.
  repeat case_decide; try tauto; simpl; by destruct (charge _ budget).
Qed.

(** C3.  Delivering the same remote batch twice applies it once.  The
    first call, on an [(origin, message_id)] not seen before, appends the
    dedup row to [device_federation_inbox] and the batch's rows to
    [device_inbox], and leaves the outbox alone; the second call with the
    same arguments, whenever it is made and whatever the storage engine
    does, leaves every table as the first call left it. *)
Theorem add_messages_from_remote_to_device_inbox_idempotent
    origin message_id local now_ms now_ms' budget budget' s s1 result s2 :
  ¬ recorded (database s) origin message_id →
  add_messages_from_remote_to_device_inbox ujson_dumps origin message_id local
    now_ms budget s = (Returned (), s1) →
  add_messages_from_remote_to_device_inbox ujson_dumps origin message_id local
    now_ms' budget' s1 = (result, s2) →
  device_federation_inbox (database s1)
  = device_federation_inbox (database s)
      ++ [FederationInboxRow origin message_id now_ms]
  ∧ device_inbox (database s1)
    = device_inbox (database s)
        ++ expected_local_rows ujson_dumps (devices (database s))
             (get_current_token (device_inbox_id_gen s) + 1) local
  ∧ device_federation_outbox (database s1)
    = device_federation_outbox (database s)
  ∧ database s2 = database s1
  ∧ (budget' = None → result = Returned ()).
Proof.
  intros Hfresh. rewrite !add_messages_from_remote_to_device_inbox_eq.
  cbv zeta. destruct (decide (recorded (database s) origin message_id)); [done|].
  destruct (charge _ budget); [|done]. intros [= <-]. simpl.
  rewrite !(decide_True (P := recorded _ _ _)) by apply recorded_insert_inbox.
  intros Hsecond. split; [done|]. split; [done|]. split; [done|].
  destruct (charge 2 budget') eqn:Hc; injection Hsecond as <- <-;
    (split; [done|]); [done|].
  intros ->. by rewrite charge_healthy in Hc.
Qed.

(** C9.  A duplicate delivery changes no table, yet it is not free: the
    generator moves on by one position, and every user named in the batch
    gets marked in the change cache at that new position, so that the cache
    answers "changed" for any position below it. Users not named keep
    their entry.  The tables are untouched whatever the storage engine
    does; the marking is done when the call returns, which it does on a
    healthy engine. *)
Theorem add_messages_from_remote_to_device_inbox_duplicate
    origin message_id local now_ms budget s :
  recorded (database s) origin message_id →
  let '(result, s') :=
    add_messages_from_remote_to_device_inbox ujson_dumps origin message_id
      local now_ms budget s in
  let stream_id := get_current_token (device_inbox_id_gen s) + 1 in
  database s' = database s
  ∧ get_current_token (device_inbox_id_gen s') = stream_id
  ∧ device_federation_outbox_stream_cache s'
    = device_federation_outbox_stream_cache s
  ∧ (budget = None → result = Returned ())
  ∧ (result = Returned () →
     ∀ user_id,
       (is_Some (local !! user_id) →
          device_inbox_stream_cache s' !! user_id
          = marked_at stream_id (device_inbox_stream_cache s !! user_id)
          ∧ ∀ pos, pos < stream_id →
              has_entity_changed (device_inbox_stream_cache s') user_id pos
              = true)
       ∧ (local !! user_id = None →
          device_inbox_stream_cache s' !! user_id
          = device_inbox_stream_cache s !! user_id)).
Proof.
  intros Hdup. rewrite add_messages_from_remote_to_device_inbox_eq.
  cbv zeta. rewrite !(decide_True (P := recorded (database s) _ _)) by done.
  destruct (charge 2 budget) eqn:Hc; simpl.
  - split; [done|]. split; [done|]. split; [done|]. split; [done|].
    intros _ user_id. rewrite lookup_mark_all_changed. split.
    + intros Hin. rewrite decide_True by by apply elem_of_keys.
      split; [done|]. intros pos Hpos.
      eapply has_entity_changed_marked; [|done].
      rewrite lookup_mark_all_changed. by rewrite decide_True by by apply elem_of_keys.
    + intros Hnot. rewrite decide_False; [done|].
      rewrite elem_of_keys, Hnot. by intros [].
  - split; [done|]. split; [done|]. split; [done|].
    split; [|done]. intros ->. by rewrite charge_healthy in Hc.
Qed.

End ingest.

(** ** The cursor readers *)

Section readers.
Context {json : Type} (ujson_loads : string → json).

Lemma collect_messages_loop (rows : list (Z * string)) messages stream_pos :
  foldl (λ '(messages, _) row,
           (messages ++ [ujson_loads row.2], Some row.1))
        (messages, stream_pos) rows
  = (messages ++ ((λ row, ujson_loads row.2) <$> rows),
     match last rows with
     | Some row => Some row.1
     | None => stream_pos
     end).
Proof.
  revert messages stream_pos.
  induction rows as [|row rows IH]; intros messages stream_pos.
  - simpl. by rewrite app_nil_r.
  - cbn [foldl]. rewrite IH, fmap_cons, <- app_assoc. simpl. f_equal.
    rewrite last_cons. by destruct (last rows).
Qed.

Lemma collect_messages_eq rows current_stream_id limit :
  collect_messages ujson_loads rows current_stream_id limit
  = let messages := (λ row, ujson_loads row.2) <$> rows in
    if decide (length rows < limit)%nat
    then Returned (messages, current_stream_id)
    else match last rows with
         | Some row => Returned (messages, row.1)
         | None => Raised UnboundLocalError
         end.
Proof.
  unfold collect_messages. rewrite collect_messages_loop. simpl.
  rewrite length_fmap. case_decide; [done|]. by destruct (last rows).
Qed.

Lemma get_new_messages_for_device_healthy user_id device_id last_stream_id
    current_stream_id limit s :
  get_new_messages_for_device ujson_loads user_id device_id last_stream_id
    current_stream_id limit None s
  = if has_entity_changed (device_inbox_stream_cache s) user_id last_stream_id
    then collect_messages ujson_loads
           (select_device_inbox (device_inbox (database s)) user_id device_id
              last_stream_id current_stream_id limit)
           current_stream_id limit
    else Returned ([], current_stream_id).
Proof.
  unfold get_new_messages_for_device.
  destruct (has_entity_changed _ _ _); [|done]. simpl.
  unfold_read_txn. simpl.
  by destruct (collect_messages _ _ _ _) as [[??]|?].
Qed.

Lemma get_new_device_msgs_for_remote_healthy destination last_stream_id
    current_stream_id limit s :
  get_new_device_msgs_for_remote ujson_loads destination last_stream_id
    current_stream_id limit None s
  = if has_entity_changed (device_federation_outbox_stream_cache s) destination
         last_stream_id
    then collect_messages ujson_loads
           (select_device_federation_outbox
              (device_federation_outbox (database s)) destination
              last_stream_id current_stream_id limit)
           current_stream_id limit
    else Returned ([], current_stream_id).
Proof.
  unfold get_new_device_msgs_for_remote.
  destruct (has_entity_changed _ _ _); [|done]. simpl.
  unfold_read_txn. simpl.
  by destruct (collect_messages _ _ _ _) as [[??]|?].
Qed.

(** C1.  Where a cursor read leaves the cursor.  For both readers, once the
    cache has let the read through to storage: if the query returned as
    many rows as [limit] allows, the position handed back is that of the
    last row returned; if it returned fewer (none, even), the position
    handed back is [current_stream_id], whether or not any row sits there.
    The messages are the decoded rows in both cases. *)
Theorem cursor_read_new_last_position user_id device_id destination
    last_stream_id current_stream_id limit s :
  let inbox_rows :=
    select_device_inbox (device_inbox (database s)) user_id device_id
      last_stream_id current_stream_id limit in
  let outbox_rows :=
    select_device_federation_outbox (device_federation_outbox (database s))
      destination last_stream_id current_stream_id limit in
  (has_entity_changed (device_inbox_stream_cache s) user_id last_stream_id
   = true →
   (∀ last_row, last inbox_rows = Some last_row →
      length inbox_rows = limit →
      get_new_messages_for_device ujson_loads user_id device_id last_stream_id
        current_stream_id limit None s
      = Returned ((λ row, ujson_loads row.2) <$> inbox_rows, last_row.1))
   ∧ ((length inbox_rows < limit)%nat →
      get_new_messages_for_device ujson_loads user_id device_id last_stream_id
        current_stream_id limit None s
      = Returned ((λ row, ujson_loads row.2) <$> inbox_rows,
                  current_stream_id)))
  ∧ (has_entity_changed (device_federation_outbox_stream_cache s) destination
       last_stream_id = true →
     (∀ last_row, last outbox_rows = Some last_row →
        length outbox_rows = limit →
        get_new_device_msgs_for_remote ujson_loads destination last_stream_id
          current_stream_id limit None s
        = Returned ((λ row, ujson_loads row.2) <$> outbox_rows, last_row.1))
     ∧ ((length outbox_rows < limit)%nat →
        get_new_device_msgs_for_remote ujson_loads destination last_stream_id
          current_stream_id limit None s
        = Returned ((λ row, ujson_loads row.2) <$> outbox_rows,
                    current_stream_id))).
Proof.
  cbv zeta. split; intros Hchanged.
  - rewrite get_new_messages_for_device_healthy, Hchanged,
      collect_messages_eq. cbv zeta. split.
    + intros last_row -> Hlen. by rewrite decide_False by lia.
    + intros Hlen. by rewrite decide_True by done.
  - rewrite get_new_device_msgs_for_remote_healthy, Hchanged,
      collect_messages_eq. cbv zeta. split.
    + intros last_row -> Hlen. by rewrite decide_False by lia.
    + intros Hlen. by rewrite decide_True by done.
Qed.

Lemma select_device_inbox_length tbl user_id device_id last_stream_id
    current_stream_id limit :
  (length (select_device_inbox tbl user_id device_id last_stream_id
             current_stream_id limit) ≤ limit)%nat.
Proof.
  unfold select_device_inbox. rewrite length_fmap, length_take. lia.
Qed.

(** C10.  [get_new_messages_for_device] always has a position to return
    when [limit] is at least 1: [current_stream_id] when the cache reports
    no change, [current_stream_id] again when the query returns fewer rows
    than [limit] (none at all included), and the position of the last row
    otherwise.  With [limit = 0] the query returns nothing, nothing is ever
    assigned to [stream_pos], and the read raises as soon as the cache lets
    it through. *)
Theorem get_new_messages_for_device_total user_id device_id last_stream_id
    current_stream_id s :
  let changed :=
    has_entity_changed (device_inbox_stream_cache s) user_id last_stream_id in
  (∀ limit, (1 ≤ limit)%nat →
     let rows :=
       select_device_inbox (device_inbox (database s)) user_id device_id
         last_stream_id current_stream_id limit in
     ∃ messages stream_pos,
       get_new_messages_for_device ujson_loads user_id device_id
         last_stream_id current_stream_id limit None s
       = Returned (messages, stream_pos)
       ∧ (changed = false → messages = [] ∧ stream_pos = current_stream_id)
       ∧ (changed = true → (length rows < limit)%nat →
          stream_pos = current_stream_id)
       ∧ (changed = true → ¬ (length rows < limit)%nat →
          ∃ message_json, last rows = Some (stream_pos, message_json)))
  ∧ select_device_inbox (device_inbox (database s)) user_id device_id
      last_stream_id current_stream_id 0 = []
  ∧ get_new_messages_for_device ujson_loads user_id device_id last_stream_id
      current_stream_id 0 None s
    = if changed then Raised UnboundLocalError
      else Returned ([], current_stream_id).
Proof.
  cbv zeta. split; [|split].
  - intros limit Hlimit. rewrite get_new_messages_for_device_healthy.
    destruct (has_entity_changed _ _ _).
    + rewrite collect_messages_eq. cbv zeta.
      set (rows := select_device_inbox _ _ _ _ _ _).
      destruct (decide (length rows < limit)%nat) as [Hlt|Hge].
      * eexists _, _. split; [done|]. repeat split; done.
      * destruct (last rows) as [[pos js]|] eqn:Hlast.
        -- eexists _, _. split; [done|]. repeat split; try done.
           intros _ _. by exists js.
        -- apply last_None in Hlast. rewrite Hlast in Hge. simpl in Hge. lia.
    + eexists _, _. split; [done|]. repeat split; done.
  - unfold select_device_inbox. by rewrite take_0.
  - rewrite get_new_messages_for_device_healthy.
    destruct (has_entity_changed _ _ _); [|done].
    unfold select_device_inbox. by rewrite take_0.
Qed.

End readers.

(** ** [get_all_new_device_messages] *)

Lemma filter_window_split {A} (key : A → Z) (a b c : Z) (l : list A) :
  a ≤ b → b ≤ c →
  filter (λ x, in_window a c (key x)) l
  ≡ₚ filter (λ x, in_window a b (key x)) l
     ++ filter (λ x, in_window b c (key x)) l.
Proof.
  intros Hab Hbc. unfold in_window.
  induction l as [|x l IH]; [done|].
  rewrite !filter_cons.
  destruct (decide (a < key x ∧ key x ≤ c)),
    (decide (a < key x ∧ key x ≤ b)), (decide (b < key x ∧ key x ≤ c));
    try lia; simpl.
  - by rewrite IH.
  - rewrite IH. apply Permutation_middle.
  - done.
Qed.

Lemma filter_window_empty {A} (key : A → Z) (a b : Z) (l : list A) :
  b ≤ a → filter (λ x, in_window a b (key x)) l = [].
Proof.
  intros Hba. induction l as [|x l IH]; [done|].
  rewrite filter_cons, decide_False; [done|]. unfold in_window. lia.
Qed.

Lemma stream_ids_sorted tbl last_pos current_pos :
  StronglySorted Z.lt
    (order_by id
       (remove_dups
          (di_stream_id <$>
             filter (λ r, in_window last_pos current_pos (di_stream_id r)) tbl))).
Proof.
  apply (sorted_strict id); [apply order_by_sorted|].
  rewrite list_fmap_id, order_by_perm. apply NoDup_remove_dups.
Qed.

Lemma elem_of_stream_ids tbl last_pos current_pos pos :
  pos ∈ order_by id
          (remove_dups
             (di_stream_id <$>
                filter (λ r, in_window last_pos current_pos (di_stream_id r))
                       tbl))
  ↔ in_window last_pos current_pos pos ∧ ∃ r, r ∈ tbl ∧ di_stream_id r = pos.
Proof.
  rewrite elem_of_order_by, elem_of_remove_dups, list_elem_of_fmap. split.
  - intros (r & -> & [Hw Hin]%list_elem_of_filter). split; [done|]. by exists r.
  - intros (Hw & r & Hin & <-). exists r. split; [done|].
    by apply list_elem_of_filter.
Qed.

Lemma select_stream_ids_last tbl last_pos current_pos limit :
  last (select_stream_ids tbl last_pos current_pos limit)
  = StreamIdRow <$>
      last (take limit
              (order_by id
                 (remove_dups
                    (di_stream_id <$>
                       filter (λ r, in_window last_pos current_pos
                                      (di_stream_id r)) tbl)))).
Proof. unfold select_stream_ids. apply fmap_last. Qed.

(** What the method comes to when the storage engine is healthy. *)
Lemma get_all_new_device_messages_healthy db last_pos current_pos limit s :
  get_all_new_device_messages db last_pos current_pos limit None s
  = match last (select_stream_ids (device_inbox (database s)) last_pos
                  current_pos limit) with
    | None => Returned []
    | Some max_stream_id_in_limit =>
        match bind_row db max_stream_id_in_limit with
        | Some bound =>
            Returned
              (select_all_between (device_inbox (database s)) last_pos bound)
        | None => Raised DatabaseError
        end
    end.
Proof.
  unfold get_all_new_device_messages.
  case_decide as Heq.
  - subst. rewrite select_stream_ids_last.
    rewrite filter_window_empty by done. simpl. by rewrite take_nil.
  - unfold_read_txn. simpl.
    destruct (last _) as [row|]; simpl; [|done].
    by destruct (bind_row db row).
Qed.

(** The first query selects nothing exactly when it may select no position
    or there is none to select. *)
Lemma select_stream_ids_nil tbl last_pos current_pos limit :
  last (select_stream_ids tbl last_pos current_pos limit) = None
  ↔ limit = 0%nat
    ∨ filter (λ r, in_window last_pos current_pos (di_stream_id r)) tbl = [].
Proof.
  rewrite select_stream_ids_last, fmap_None, last_None.
  set (window := filter _ tbl).
  split.
  - intros Hnil. destruct limit as [|limit]; [by left|right].
    destruct (order_by id (remove_dups (di_stream_id <$> window)))
      as [|pos ids] eqn:Hids; [|done].
    apply order_by_nil_inv in Hids.
    destruct window as [|r window']; [done|].
    assert (di_stream_id r ∈ remove_dups (di_stream_id <$> r :: window'))
      as Hin by (apply elem_of_remove_dups; left).
    rewrite Hids in Hin. by apply elem_of_nil in Hin.
  - intros [->|Hempty]; [apply take_0|].
    subst window. rewrite Hempty. simpl. apply take_nil.
Qed.

(** The rows of a page, with [frontier] the bound of the second query. *)
Lemma page_positions tbl last_pos current_pos limit frontier :
  last (take limit
          (order_by id
             (remove_dups
                (di_stream_id <$>
                   filter (λ r, in_window last_pos current_pos
                                  (di_stream_id r)) tbl))))
  = Some frontier →
  in_window last_pos current_pos frontier
  ∧ (∃ r, r ∈ tbl ∧ di_stream_id r = frontier)
  ∧ (∀ pos,
       pos ∈ take limit
               (order_by id
                  (remove_dups
                     (di_stream_id <$>
                        filter (λ r, in_window last_pos current_pos
                                       (di_stream_id r)) tbl)))
       ↔ pos ≤ frontier
         ∧ in_window last_pos current_pos pos
         ∧ ∃ r, r ∈ tbl ∧ di_stream_id r = pos)
  ∧ ((∃ r, r ∈ tbl ∧ in_window last_pos current_pos (di_stream_id r)
           ∧ frontier < di_stream_id r) →
     length (take limit
               (order_by id
                  (remove_dups
                     (di_stream_id <$>
                        filter (λ r, in_window last_pos current_pos
                                       (di_stream_id r)) tbl))))
     = limit).
Proof.
  set (all := order_by id _). intros Hlast.
  pose proof (stream_ids_sorted tbl last_pos current_pos) as Hsorted.
  fold all in Hsorted.
  assert (∀ pos, pos ∈ all ↔
            in_window last_pos current_pos pos
            ∧ ∃ r, r ∈ tbl ∧ di_stream_id r = pos) as Hall
    by (intros pos; apply elem_of_stream_ids).
  pose proof Hlast as [front Hfront]%last_Some.
  assert (all = front ++ frontier :: drop limit all) as Hsplit.
  { rewrite <- (take_drop limit all) at 1. by rewrite Hfront, <- app_assoc. }
  rewrite Hsplit in Hsorted.
  apply StronglySorted_app in Hsorted as (Hcross & _ & Hrest).
  apply StronglySorted_cons in Hrest as [Hbeyond _].
  rewrite Forall_forall in Hbeyond.
  assert (frontier ∈ all) as Hfrontier
    by (rewrite Hsplit; apply elem_of_app; right; left).
  apply Hall in Hfrontier as [Hwindow Hrow].
  split; [done|]. split; [done|]. split.
  - intros pos. rewrite Hfront. split.
    + intros Hpos.
      assert (pos ∈ all) as Hin.
      { rewrite Hsplit. apply elem_of_app.
        apply elem_of_app in Hpos as [Hpos|Hpos%list_elem_of_singleton];
          [by left|right; subst; left]. }
      apply Hall in Hin as [Hw Hr]. split; [|done].
      apply elem_of_app in Hpos as [Hpos|Hpos%list_elem_of_singleton];
        [|lia].
      apply Z.lt_le_incl. apply (Hcross pos frontier); [done|left].
    + intros (Hle & Hw & Hr).
      assert (pos ∈ all) as Hin by (by apply Hall).
      rewrite Hsplit in Hin.
      apply elem_of_app in Hin as [Hin|Hin]; [apply elem_of_app; by left|].
      apply elem_of_cons in Hin as [->|Hin];
        [apply elem_of_app; right; left|].
      apply Hbeyond in Hin. lia.
  - intros (r & Hr & Hw & Hgt).
    assert (di_stream_id r ∈ all) as Hin by (apply Hall; eauto).
    rewrite length_take. apply Nat.min_l.
    destruct (decide (limit ≤ length all)%nat) as [|Hshort]; [done|].
    rewrite take_ge in Hfront by lia.
    rewrite Hfront in Hin.
    assert (StronglySorted Z.lt (front ++ [frontier])) as Hs.
    { rewrite <- Hfront. apply stream_ids_sorted. }
    apply elem_of_app in Hin as [Hin|Hin%list_elem_of_singleton]; [|lia].
    apply StronglySorted_app in Hs as (Hc & _ & _).
    specialize (Hc (di_stream_id r) frontier Hin). 
    assert (di_stream_id r < frontier) by (apply Hc; left). lia.
Qed.

(** In a list sorted by position the last row has the largest one. *)
Lemma sorted_last_largest (rows : list device_inbox_row) r r' :
  StronglySorted (λ a b, di_stream_id a ≤ di_stream_id b) rows →
  last rows = Some r' → r ∈ rows → di_stream_id r ≤ di_stream_id r'.
Proof.
  intros Hs [front ->]%last_Some Hin.
  apply elem_of_app in Hin as [Hin|Hin%list_elem_of_singleton]; [|subst; lia].
  apply StronglySorted_app in Hs as (Hcross & _ & _).
  apply (Hcross r r'); [done|left].
Qed.

(** C5.  [get_all_new_device_messages] pages by position, not by row, on a
    driver that takes a fetched row for its column; on one that does not,
    it raises as soon as there is anything to return.

    The first query selects at most [limit] distinct positions of
    [(last_pos, current_pos]], lowest first, and the second is given the
    last of those rows, [stream_ids[-1]], as its upper bound.

    With [psycopg2] the call returns, in ascending order of position and
    each exactly once, every row of the table with a position in
    [(last_pos, frontier]], where [frontier] is the position of the last
    row returned ([last_pos] when none is).  The rows returned carry
    exactly the positions the first query selected, so at most [limit] of
    them; two rows at one position are returned together or not at all;
    a row of the window is left out only when it lies beyond the frontier
    and [limit] positions were returned; and what was returned together
    with what the table holds in [(frontier, current_pos]] is the whole
    window.  The number of rows may exceed [limit].

    With [sqlite3] the call returns (no rows) only when [limit] is 0 or
    the table has no row in the window; otherwise the second [execute]
    raises. *)
Theorem get_all_new_device_messages_whole_positions last_pos current_pos limit s :
  let tbl := device_inbox (database s) in
  let window a b := filter (λ r, in_window a b (di_stream_id r)) tbl in
  (∃ rows,
     get_all_new_device_messages psycopg2 last_pos current_pos limit None s
     = Returned rows
     ∧ let frontier := default last_pos (di_stream_id <$> last rows) in
       let positions := remove_dups (di_stream_id <$> rows) in
       rows ≡ₚ window last_pos frontier
       ∧ StronglySorted (λ a b, di_stream_id a ≤ di_stream_id b) rows
       ∧ (∀ pos,
            pos ∈ sr_stream_id <$>
                    select_stream_ids tbl last_pos current_pos limit
            ↔ pos ∈ positions)
       ∧ (length positions ≤ limit)%nat
       ∧ (∀ r1 r2, r1 ∈ tbl → r2 ∈ tbl →
            di_stream_id r1 = di_stream_id r2 → r1 ∈ rows → r2 ∈ rows)
       ∧ (∀ r, r ∈ window last_pos current_pos → r ∉ rows →
            frontier < di_stream_id r ∧ length positions = limit)
       ∧ window last_pos current_pos
         ≡ₚ rows ++ window frontier current_pos)
  ∧ get_all_new_device_messages sqlite3 last_pos current_pos limit None s
    = (if decide (limit = 0%nat ∨ window last_pos current_pos = [])
       then Returned [] else Raised DatabaseError).
Proof.
  cbv zeta. rewrite !get_all_new_device_messages_healthy.
  set (tbl := device_inbox (database s)).
  pose proof (select_stream_ids_nil tbl last_pos current_pos limit) as Hnil.
  pose proof (page_positions tbl last_pos current_pos limit) as Hpage.
  rewrite select_stream_ids_last in *. unfold select_stream_ids.
  set (ids := take limit _) in *.
  split; [|destruct (last ids) as [m|]; simpl in *;
           [rewrite decide_False; [done|]; intros Hn; by apply Hnil in Hn
           |rewrite decide_True; [done|]; by apply Hnil]].
  destruct (last ids) as [m|] eqn:Hlast; simpl.
  - destruct (Hpage m eq_refl) as ([Hlow Hhigh] & (r0 & Hr0 & Hpos0) & Hids
                                   & Hfull).
    clear Hnil Hpage.
    set (rows := select_all_between tbl last_pos m).
    assert (rows ≡ₚ filter (λ r, in_window last_pos m (di_stream_id r)) tbl)
      as Hperm by apply order_by_perm.
    assert (StronglySorted (λ a b, di_stream_id a ≤ di_stream_id b) rows)
      as Hsorted by apply order_by_sorted.
    assert (r0 ∈ rows) as Hin0.
    { rewrite Hperm. apply list_elem_of_filter. split; [|done].
      unfold in_window. lia. }
    assert (default last_pos (di_stream_id <$> last rows) = m) as Hfrontier.
    { destruct (last rows) as [r'|] eqn:Hr'.
      - simpl. pose proof (sorted_last_largest rows r0 r' Hsorted Hr' Hin0).
        apply last_Some_elem_of in Hr'. rewrite Hperm in Hr'.
        apply list_elem_of_filter in Hr' as [[_ Hle] _]. lia.
      - apply last_None in Hr'. rewrite Hr' in Hin0.
        by apply elem_of_nil in Hin0. }
    assert (∀ pos, pos ∈ ids ↔ pos ∈ remove_dups (di_stream_id <$> rows))
      as Hsame.
    { intros pos. rewrite Hids, elem_of_remove_dups, list_elem_of_fmap.
      split.
      - intros (Hle & [Hl Hh] & r & Hr & <-). exists r. split; [done|].
        rewrite Hperm. apply list_elem_of_filter. by split.
      - intros (r & -> & Hr). rewrite Hperm in Hr.
        apply list_elem_of_filter in Hr as [[Hl Hh] Hr].
        split; [done|]. split; [unfold in_window; lia|by exists r]. }
    assert (NoDup ids) as Hnodup.
    { unfold ids. eapply sublist_NoDup; [|apply sublist_take].
      rewrite order_by_perm. apply NoDup_remove_dups. }
    assert (ids ≡ₚ remove_dups (di_stream_id <$> rows)) as Hpositions.
    { apply NoDup_Permutation; [done|apply NoDup_remove_dups|done]. }
    exists rows. split; [done|]. rewrite Hfrontier.
    split; [done|]. split; [done|].
    split.
    { intros pos. rewrite <- Hsame, <- list_fmap_compose.
      change (sr_stream_id ∘ StreamIdRow) with (@id Z).
      by rewrite list_fmap_id. }
    split.
    { rewrite <- Hpositions. unfold ids. rewrite length_take. lia. }
    split.
    { intros r1 r2 _ H2 Heq. rewrite Hperm, !list_elem_of_filter.
      rewrite Heq. tauto. }
    split.
    { intros r [Hw Hr]%list_elem_of_filter Hnot.
      assert (m < di_stream_id r) as Hgt.
      { rewrite Hperm, list_elem_of_filter in Hnot.
        unfold in_window in *. apply Z.nle_gt. intros Hle. apply Hnot.
        split; [lia|done]. }
      split; [done|]. rewrite <- Hpositions. apply Hfull. by exists r. }
    rewrite Hperm. apply filter_window_split; lia.
  - exists []. split; [done|]. simpl.
    assert (limit = 0%nat
            ∨ filter (λ r, in_window last_pos current_pos (di_stream_id r))
                tbl = []) as Hnone by (by apply Hnil).
    rewrite (filter_window_empty _ last_pos last_pos) by done.
    split; [done|]. split; [constructor|].
    split.
    { intros pos. apply last_None in Hlast. rewrite Hlast. simpl.
      split; intros H; by apply elem_of_nil in H. }
    split; [lia|].
    split; [intros r1 r2 _ _ _ H; by apply elem_of_nil in H|].
    split.
    { intros r Hr _. destruct Hnone as [->|Hempty].
      - split; [|done]. apply list_elem_of_filter in Hr as [[? _] _]. done.
      - rewrite Hempty in Hr. by apply elem_of_nil in Hr. }
    done.
Qed.

(** ** The invariants hold in every reachable store *)

Section append_rows.
Context {R K : Type} (key : R → K) (entity : R → string) (pos : R → Z).
Implicit Types (old new : list R).

Lemma issued_append old new current :
  Forall (λ r, pos r ≤ current) old →
  Forall (λ r, pos r = current + 1) new →
  Forall (λ r, pos r ≤ current + 1) (old ++ new).
Proof.
  intros Hold Hnew. apply Forall_app. split.
  - eapply Forall_impl; [exact Hold|]. simpl. lia.
  - eapply Forall_impl; [exact Hnew|]. simpl. lia.
Qed.

Lemma unique_append old new current :
  NoDup ((λ r, (key r, pos r)) <$> old) →
  Forall (λ r, pos r ≤ current) old →
  Forall (λ r, pos r = current + 1) new →
  NoDup (key <$> new) →
  NoDup ((λ r, (key r, pos r)) <$> (old ++ new)).
Proof.
  intros Hold Hle Hnew Hkeys. rewrite fmap_app. apply NoDup_app.
  split; [done|]. split.
  - intros kp (r & -> & Hr)%list_elem_of_fmap (r' & Heq & Hr')%list_elem_of_fmap.
    rewrite Forall_forall in Hle, Hnew.
    specialize (Hle _ Hr). specialize (Hnew _ Hr'). simpl in *.
    injection Heq as _ Hpos. lia.
  - apply (NoDup_fmap_1 fst). rewrite <- list_fmap_compose.
    by replace (fst ∘ (λ r, (key r, pos r))) with key.
Qed.

Lemma sound_append old new entities current cache :
  no_false_negatives cache ((λ r, (entity r, pos r)) <$> old) →
  Forall (λ r, pos r = current + 1 ∧ entity r ∈ entities) new →
  no_false_negatives (mark_all_changed entities (current + 1) cache)
    ((λ r, (entity r, pos r)) <$> (old ++ new)).
Proof.
  intros Hold Hnew e stream_id p Hin Hp.
  rewrite fmap_app, elem_of_app in Hin. destruct Hin as [Hin|Hin].
  - apply has_entity_changed_mark_all. by eapply Hold.
  - apply list_elem_of_fmap in Hin as (r & [= -> ->] & Hr).
    rewrite Forall_forall in Hnew. destruct (Hnew _ Hr) as [Hpos Hent].
    eapply (has_entity_changed_marked (current + 1)); [|lia].
    rewrite lookup_mark_all_changed. by rewrite decide_True by done.
Qed.

Lemma issued_filter (P : R → Prop) `{!∀ r, Decision (P r)} old current :
  Forall (λ r, pos r ≤ current) old →
  Forall (λ r, pos r ≤ current) (filter P old).
Proof.
  intros Hold. apply Forall_forall. intros r [_ Hr]%list_elem_of_filter.
  rewrite Forall_forall in Hold. by apply Hold.
Qed.

Lemma unique_filter (P : R → Prop) `{!∀ r, Decision (P r)} old :
  NoDup ((λ r, (key r, pos r)) <$> old) →
  NoDup ((λ r, (key r, pos r)) <$> filter P old).
Proof.
  intros Hold. eapply sublist_NoDup; [exact Hold|].
  apply fmap_sublist, sublist_filter.
Qed.

Lemma sound_filter (P : R → Prop) `{!∀ r, Decision (P r)} old cache :
  no_false_negatives cache ((λ r, (entity r, pos r)) <$> old) →
  no_false_negatives cache ((λ r, (entity r, pos r)) <$> filter P old).
Proof.
  intros Hold e stream_id p
    (r & [= -> ->] & [_ Hr]%list_elem_of_filter)%list_elem_of_fmap.
  apply Hold. by apply (list_elem_of_fmap_2 (λ r, (entity r, pos r))).
Qed.

End append_rows.

(** The shape every writing method leaves the store in: rows appended at
    the next position, the generator moved there, entities marked. *)
Lemma store_inv_append s s' local_rows remote_rows users destinations :
  store_inv s →
  let stream_id := get_current_token (device_inbox_id_gen s) + 1 in
  device_inbox (database s') = device_inbox (database s) ++ local_rows →
  device_federation_outbox (database s')
  = device_federation_outbox (database s) ++ remote_rows →
  device_inbox_id_gen s' = MkIdGen stream_id →
  device_inbox_stream_cache s'
  = mark_all_changed users stream_id (device_inbox_stream_cache s) →
  device_federation_outbox_stream_cache s'
  = mark_all_changed destinations stream_id
      (device_federation_outbox_stream_cache s) →
  Forall (λ r, di_stream_id r = stream_id ∧ di_user_id r ∈ users) local_rows →
  NoDup ((λ r, (di_user_id r, di_device_id r)) <$> local_rows) →
  Forall (λ r, fo_stream_id r = stream_id ∧ fo_destination r ∈ destinations)
         remote_rows →
  NoDup (fo_destination <$> remote_rows) →
  store_inv s'.
Proof.
  intros ([Hi1 Hi2] & [Hu1 Hu2] & [Hs1 Hs2]) stream_id Hdi Hfo Hgen Hc1 Hc2
    Hl Hlk Hr Hrk.
  unfold store_inv, positions_issued, positions_unique, caches_sound,
    get_current_token in *.
  rewrite Hdi, Hfo, Hgen, Hc1, Hc2. simpl.
  assert (Forall (λ r, di_stream_id r = stream_id) local_rows) as Hl'.
  { eapply Forall_impl; [exact Hl|]. by intros ? []. }
  assert (Forall (λ r, fo_stream_id r = stream_id) remote_rows) as Hr'.
  { eapply Forall_impl; [exact Hr|]. by intros ? []. }
  split_and!.
  - by apply issued_append.
  - by apply issued_append.
  - by eapply (unique_append (λ r, (di_user_id r, di_device_id r))).
  - by eapply (unique_append fo_destination).
  - by apply (sound_append di_user_id).
  - by apply (sound_append fo_destination).
Qed.

Lemma delete_messages_for_device_eq user_id device_id up_to_stream_id budget s :
  delete_messages_for_device user_id device_id up_to_stream_id budget s
  = match charge 2 budget with
    | Some _ =>
        (Returned (),
         MkStore
           {| devices := devices (database s);
              device_inbox :=
                delete_from_device_inbox (device_inbox (database s)) user_id
                  device_id up_to_stream_id;
              device_federation_outbox :=
                device_federation_outbox (database s);
              device_federation_inbox := device_federation_inbox (database s) |}
           (device_inbox_id_gen s) (device_inbox_stream_cache s)
           (device_federation_outbox_stream_cache s))
    | None =>
        (Raised DatabaseError,
         MkStore (database s) (device_inbox_id_gen s)
           (device_inbox_stream_cache s)
           (device_federation_outbox_stream_cache s))
    end.
Proof.
  unfold delete_messages_for_device, delete_messages_for_device_txn.
  erewrite runInteraction_runs by apply txn_write_runs.
  by destruct (charge 2 budget).
Qed.

Lemma delete_device_msgs_for_remote_eq destination up_to_stream_id budget s :
  delete_device_msgs_for_remote destination up_to_stream_id budget s
  = match charge 2 budget with
    | Some _ =>
        (Returned (),
         MkStore
           {| devices := devices (database s);
              device_inbox := device_inbox (database s);
              device_federation_outbox :=
                delete_from_device_federation_outbox
                  (device_federation_outbox (database s)) destination
                  up_to_stream_id;
              device_federation_inbox := device_federation_inbox (database s) |}
           (device_inbox_id_gen s) (device_inbox_stream_cache s)
           (device_federation_outbox_stream_cache s))
    | None =>
        (Raised DatabaseError,
         MkStore (database s) (device_inbox_id_gen s)
           (device_inbox_stream_cache s)
           (device_federation_outbox_stream_cache s))
    end.
Proof.
  unfold delete_device_msgs_for_remote,
    delete_messages_for_remote_destination_txn.
  erewrite runInteraction_runs by apply txn_write_runs.
  by destruct (charge 2 budget).
Qed.

Section reachable.
Context {json : Type} (ujson_dumps : json → string).

Lemma expected_local_rows_marked tbl stream_id
    (local : gmap string (gmap string json)) :
  Forall (λ r, di_stream_id r = stream_id
               ∧ di_user_id r ∈ (map_to_list local).*1)
         (expected_local_rows ujson_dumps tbl stream_id local).
Proof.
  apply Forall_forall. intros r Hr.
  apply elem_of_expected_local_rows in Hr
    as (u & mbd & dev & msg & Hu & _ & _ & ->).
  split; [done|]. simpl. apply elem_of_keys. by exists mbd.
Qed.

Lemma federation_outbox_rows_marked stream_id now_ms
    (remote : gmap string json) :
  Forall (λ r, fo_stream_id r = stream_id
               ∧ fo_destination r ∈ (map_to_list remote).*1)
         (federation_outbox_rows ujson_dumps stream_id now_ms remote).
Proof.
  apply Forall_forall. intros r Hr.
  apply elem_of_federation_outbox_rows in Hr as (dest & edu & Hd & ->).
  split; [done|]. simpl. apply elem_of_keys. by exists edu.
Qed.

(** Every step of a history keeps the invariants. *)
Lemma store_inv_run_op o s :
  store_inv s → store_inv (run_op ujson_dumps o s).
Proof.
  intros Hinv. destruct_op o.
  - rewrite add_messages_to_device_inbox_eq. cbv zeta.
    destruct (charge _ budget); simpl.
    + eapply (store_inv_append s _ _ _ _ _ Hinv); try done.
      * apply expected_local_rows_marked.
      * apply expected_local_rows_NoDup.
      * apply federation_outbox_rows_marked.
      * apply federation_outbox_rows_NoDup.
    + eapply (store_inv_append s _ [] [] [] [] Hinv);
        rewrite ?app_nil_r; try done; constructor.
  - rewrite add_messages_from_remote_to_device_inbox_eq. cbv zeta.
    destruct (charge _ budget); simpl.
    + destruct (decide (recorded (database s) origin message_id)).
      * eapply (store_inv_append s _ [] [] _ [] Hinv);
          rewrite ?app_nil_r; try done; constructor.
      * eapply (store_inv_append s _
                  (expected_local_rows ujson_dumps (devices (database s))
                     (get_current_token (device_inbox_id_gen s) + 1) local)
                  [] _ [] Hinv); simpl; rewrite ?app_nil_r; try done;
          try constructor.
        -- apply expected_local_rows_marked.
        -- apply expected_local_rows_NoDup.
    + eapply (store_inv_append s _ [] [] [] [] Hinv);
        rewrite ?app_nil_r; try done; constructor.
  - rewrite delete_messages_for_device_eq.
    destruct Hinv as ([Hi1 Hi2] & [Hu1 Hu2] & [Hs1 Hs2]).
    destruct (charge 2 budget); simpl; [|done].
    unfold store_inv, positions_issued, positions_unique, caches_sound.
    simpl. unfold delete_from_device_inbox. split_and!; try done.
    + by apply issued_filter.
    + by apply (unique_filter (λ r, (di_user_id r, di_device_id r))).
    + by apply (sound_filter di_user_id).
  - rewrite delete_device_msgs_for_remote_eq.
    destruct Hinv as ([Hi1 Hi2] & [Hu1 Hu2] & [Hs1 Hs2]).
    destruct (charge 2 budget); simpl; [|done].
    unfold store_inv, positions_issued, positions_unique, caches_sound.
    simpl. unfold delete_from_device_federation_outbox. split_and!; try done.
    + by apply issued_filter.
    + by apply (unique_filter fo_destination).
    + by apply (sound_filter fo_destination).
  - done.
Qed.

Lemma store_inv_run_ops ops s :
  store_inv s → store_inv (run_ops ujson_dumps ops s).
Proof.
  unfold run_ops. revert s.
  induction ops as [|o ops IH]; intros s Hinv; [done|].
  simpl. by apply IH, store_inv_run_op.
Qed.

End reachable.

(** A store with nothing queued satisfies them, whatever its generator and
    caches hold. *)
Lemma store_inv_empty dv fi gen cache_i cache_o :
  store_inv (MkStore (MkDatabase dv [] [] fi) gen cache_i cache_o).
Proof.
  unfold store_inv, positions_issued, positions_unique, caches_sound,
    no_false_negatives. simpl.
  split_and!; try constructor; by intros ??? ?%elem_of_nil.
Qed.

Lemma reachable_inv {json} (ujson_dumps : json → string) s :
  reachable ujson_dumps s → store_inv s.
Proof.
  intros (ops & dv & fi & gen & cache_i & cache_o & ->).
  apply store_inv_run_ops, store_inv_empty.
Qed.

(** ** Paging through one device's inbox *)

Lemma filter_none {A} (P : A → Prop) `{!∀ x, Decision (P x)} (l : list A) :
  (∀ x, x ∈ l → ¬ P x) → filter P l = [].
Proof.
  induction l as [|x l IH]; intros Hnone; [done|].
  rewrite filter_cons, decide_False by (apply Hnone; by left).
  apply IH. intros y Hy. apply Hnone. by right.
Qed.

Lemma NoDup_fmap_inj_on {A B} (f : A → B) (l : list A) x y :
  NoDup (f <$> l) → x ∈ l → y ∈ l → f x = f y → x = y.
Proof.
  induction l as [|z l IH]; [by intros _ ?%elem_of_nil|].
  rewrite fmap_cons, NoDup_cons.
  intros [Hz Hnd] [->|Hx]%elem_of_cons [->|Hy]%elem_of_cons Heq.
  - done.
  - exfalso. apply Hz. rewrite Heq. by apply list_elem_of_fmap_2.
  - exfalso. apply Hz. rewrite <- Heq. by apply list_elem_of_fmap_2.
  - by apply IH.
Qed.

(** Cutting a strictly sorted list after [n] elements. *)
Lemma take_then_beyond {A} (key : A → Z) (l : list A) n r :
  StronglySorted (λ a b, key a < key b) l →
  last (take n l) = Some r →
  l = take n l ++ filter (λ y, key r < key y) l.
Proof.
  intros Hs [front Hfront]%last_Some.
  assert (l = front ++ r :: drop n l) as Hl.
  { rewrite <- (take_drop n l) at 1. by rewrite Hfront, <- app_assoc. }
  pose proof (sorted_strict_beyond key front r (drop n l)) as Hb.
  rewrite <- Hl in Hb. rewrite (Hb Hs). symmetry. apply take_drop.
Qed.

Lemma device_inbox_between_strict s user_id device_id a c :
  positions_unique s →
  StronglySorted (λ x y, di_stream_id x < di_stream_id y)
    (device_inbox_between (device_inbox (database s)) user_id device_id a c).
Proof.
  intros [Hnd _]. unfold device_inbox_between.
  apply sorted_strict; [apply order_by_sorted|].
  rewrite order_by_perm. apply NoDup_fmap_2_strong.
  - intros x y [(Hxu & Hxd & _) Hx]%list_elem_of_filter
      [(Hyu & Hyd & _) Hy]%list_elem_of_filter Heq.
    eapply NoDup_fmap_inj_on; [exact Hnd|done|done|]. simpl. congruence.
  - apply NoDup_filter. by apply NoDup_fmap_1 in Hnd.
Qed.

Lemma device_inbox_between_resume tbl user_id device_id a c pos :
  a ≤ pos →
  device_inbox_between tbl user_id device_id pos c
  = filter (λ y, pos < di_stream_id y)
      (device_inbox_between tbl user_id device_id a c).
Proof.
  intros Hle. unfold device_inbox_between.
  rewrite <- order_by_filter. f_equal.
  rewrite list_filter_filter. apply list_filter_iff.
  intros r. unfold in_window. intuition lia.
Qed.

Lemma device_inbox_between_empty tbl user_id device_id a c :
  c ≤ a → device_inbox_between tbl user_id device_id a c = [].
Proof.
  intros Hle. unfold device_inbox_between. rewrite filter_none; [done|].
  intros r _. unfold in_window. lia.
Qed.

Lemma elem_of_device_inbox_between tbl user_id device_id a c r :
  r ∈ device_inbox_between tbl user_id device_id a c ↔
  r ∈ tbl ∧ di_user_id r = user_id ∧ di_device_id r = device_id
  ∧ in_window a c (di_stream_id r).
Proof.
  unfold device_inbox_between.
  rewrite elem_of_order_by, list_elem_of_filter. tauto.
Qed.

(** When the cache says nothing changed, there is nothing to read. *)
Lemma cache_silent_no_rows s user_id device_id a c :
  caches_sound s →
  has_entity_changed (device_inbox_stream_cache s) user_id a = false →
  device_inbox_between (device_inbox (database s)) user_id device_id a c = [].
Proof.
  intros [Hsound _] Hsilent. unfold device_inbox_between.
  rewrite filter_none; [done|].
  intros r Hr (Hu & _ & Ha & _).
  rewrite (Hsound user_id (di_stream_id r) a) in Hsilent; [done| |done].
  apply list_elem_of_fmap. exists r. by rewrite Hu.
Qed.

Section paging.
Context {json : Type} (ujson_dumps : json → string)
  (ujson_loads : string → json).

(** A read that returns returns what it would on a healthy engine. *)
Lemma get_new_messages_for_device_returned user_id device_id last_stream_id
    current_stream_id limit budget s r :
  get_new_messages_for_device ujson_loads user_id device_id last_stream_id
    current_stream_id limit budget s = Returned r →
  get_new_messages_for_device ujson_loads user_id device_id last_stream_id
    current_stream_id limit None s = Returned r.
Proof.
  unfold get_new_messages_for_device.
  destruct (has_entity_changed _ _ _); simpl; [|done].
  unfold_read_txn.
  destruct budget as [[|[|k]]|]; simpl; try done;
    by destruct (collect_messages _ _ _ _) as [[??]|].
Qed.

(** One read hands back a front piece of what is stored beyond the
    cursor, and leaves the cursor where the rest begins. *)
Lemma get_new_messages_for_device_step user_id device_id last_stream_id
    current_stream_id limit budget s messages stream_pos :
  positions_unique s → caches_sound s →
  get_new_messages_for_device ujson_loads user_id device_id last_stream_id
    current_stream_id limit budget s = Returned (messages, stream_pos) →
  stored_payloads ujson_loads s user_id device_id last_stream_id
    current_stream_id
  = messages
    ++ stored_payloads ujson_loads s user_id device_id stream_pos
         current_stream_id.
Proof.
  intros Huniq Hsound Hread.
  apply get_new_messages_for_device_returned in Hread. revert Hread.
  rewrite get_new_messages_for_device_healthy.
  unfold stored_payloads.
  set (tbl := device_inbox (database s)).
  set (L := device_inbox_between tbl user_id device_id last_stream_id
              current_stream_id).
  destruct (has_entity_changed _ _ _) eqn:Hchanged.
  - rewrite collect_messages_eq. cbv zeta. unfold select_device_inbox.
    fold L. rewrite <- list_fmap_compose, length_fmap.
    case_decide as Hlen.
    + intros [= <- <-].
      rewrite (device_inbox_between_empty _ _ _ current_stream_id) by done.
      rewrite take_ge; [by rewrite app_nil_r|].
      rewrite length_take in Hlen. lia.
    + rewrite fmap_last.
      destruct (last (take limit L)) as [r|] eqn:Hlast; [|done].
      simpl. intros [= <- <-].
      assert (r ∈ L) as Hr.
      { eapply subseteq_take, last_Some_elem_of, Hlast. }
      apply elem_of_device_inbox_between in Hr as (_ & _ & _ & [Hlow _]).
      rewrite (device_inbox_between_resume _ _ _ last_stream_id) by lia.
      fold L. rewrite <- fmap_app. f_equal.
      apply (take_then_beyond di_stream_id); [|done].
      by apply device_inbox_between_strict.
  - intros [= <- <-]. unfold L, tbl.
    rewrite (cache_silent_no_rows s) by done.
    by rewrite (device_inbox_between_empty _ _ _ current_stream_id) by done.
Qed.

(** What a sequence of contiguous reads returns is a front piece of what
    is stored, and what lies beyond its final cursor is the rest. *)
Lemma read_sequence_front user_id device_id current_stream_id reads
    initial_stream_id s payloads final_pos :
  positions_unique s → caches_sound s →
  read_sequence ujson_loads user_id device_id current_stream_id reads
    initial_stream_id s = Returned (payloads, final_pos) →
  stored_payloads ujson_loads s user_id device_id initial_stream_id
    current_stream_id
  = payloads
    ++ stored_payloads ujson_loads s user_id device_id final_pos
         current_stream_id.
Proof.
  intros Huniq Hsound. revert initial_stream_id payloads.
  induction reads as [|[limit budget] reads IH]; intros a payloads; simpl.
  - by intros [= <- <-].
  - destruct (get_new_messages_for_device _ _ _ _ _ _ _ _)
      as [[messages stream_pos]|] eqn:Hread; [|done].
    destruct (read_sequence _ _ _ _ _ _ _) as [[more final]|] eqn:Hrest;
      [|done].
    intros [= <- <-].
    rewrite (get_new_messages_for_device_step _ _ _ _ _ _ _ _ _ Huniq Hsound
               Hread).
    rewrite (IH _ _ Hrest). by rewrite app_assoc.
Qed.

(** C6.  Paging with contiguous cursors neither repeats nor skips.  On any
    store the methods can have produced, take any sequence of reads for one
    device against the same [current_stream_id], each starting at the
    position the previous one returned (each with a limit of its own, and
    whatever the storage engine does, as long as the reads return).  What
    the reads returned, put end to end, is a front piece of what is stored
    for the device in [(initial, current_stream_id]], oldest first, and
    what is stored beyond the position the sequence ended at is exactly the
    rest.  So once the sequence has reached [current_stream_id], what was
    returned is exactly what is stored in [(initial, current_stream_id]]. *)
Theorem read_sequence_complete user_id device_id current_stream_id reads
    initial_stream_id s payloads final_pos :
  reachable ujson_dumps s →
  read_sequence ujson_loads user_id device_id current_stream_id reads
    initial_stream_id s = Returned (payloads, final_pos) →
  stored_payloads ujson_loads s user_id device_id initial_stream_id
    current_stream_id
  = payloads
    ++ stored_payloads ujson_loads s user_id device_id final_pos
         current_stream_id
  ∧ (final_pos = current_stream_id →
     payloads
     = stored_payloads ujson_loads s user_id device_id initial_stream_id
         current_stream_id).
Proof.
  intros (_ & Huniq & Hsound)%reachable_inv Hseq.
  pose proof (read_sequence_front _ _ _ _ _ _ _ _ Huniq Hsound Hseq) as Hsplit.
  split; [done|]. intros ->. rewrite Hsplit. unfold stored_payloads.
  rewrite device_inbox_between_empty by done. by rewrite app_nil_r.
Qed.

(** Paging does get there.  On a healthy engine and with a limit of at
    least 1, a read either reaches [current_stream_id] or returns a full
    page; so more reads than there are messages stored always end at
    [current_stream_id]. *)
Lemma get_new_messages_for_device_progress user_id device_id last_stream_id
    current_stream_id limit s :
  (1 ≤ limit)%nat →
  ∃ messages stream_pos,
    get_new_messages_for_device ujson_loads user_id device_id last_stream_id
      current_stream_id limit None s = Returned (messages, stream_pos)
    ∧ (stream_pos = current_stream_id ∧ (length messages < limit)%nat
       ∨ length messages = limit).
Proof.
  intros Hlimit. rewrite get_new_messages_for_device_healthy.
  destruct (has_entity_changed _ _ _).
  - rewrite collect_messages_eq. cbv zeta.
    set (rows := select_device_inbox _ _ _ _ _ _).
    assert (length rows ≤ limit)%nat by apply select_device_inbox_length.
    case_decide as Hlen.
    + eexists _, _. split; [done|]. left. by rewrite length_fmap.
    + destruct (last rows) as [row|] eqn:Hlast.
      * eexists _, _. split; [done|]. right. rewrite length_fmap. lia.
      * apply last_None in Hlast. rewrite Hlast in Hlen. simpl in Hlen. lia.
  - eexists _, _. split; [done|]. left. simpl. split; [done|lia].
Qed.

Lemma read_sequence_drains user_id device_id current_stream_id limit n
    initial_stream_id s :
  positions_unique s → caches_sound s → (1 ≤ limit)%nat →
  (length (stored_payloads ujson_loads s user_id device_id initial_stream_id
             current_stream_id) < n)%nat →
  ∃ payloads,
    read_sequence ujson_loads user_id device_id current_stream_id
      (replicate n (limit, None)) initial_stream_id s
    = Returned (payloads, current_stream_id).
Proof.
  intros Huniq Hsound Hlimit. revert initial_stream_id.
  induction (lt_wf n) as [n _ IH]. intros a Hn.
  destruct n as [|n]; [lia|]. simpl.
  destruct (get_new_messages_for_device_progress user_id device_id a
              current_stream_id limit s Hlimit)
    as (messages & stream_pos & Hread & Hcase).
  rewrite Hread.
  pose proof (get_new_messages_for_device_step _ _ _ _ _ _ _ _ _ Huniq Hsound
                Hread) as Hstep.
  apply (f_equal length) in Hstep. rewrite length_app in Hstep.
  destruct (decide (n = 0)%nat) as [->|Hpos].
  - simpl. destruct Hcase as [[-> _]|Hfull]; [by eexists|]. lia.
  - destruct (IH n ltac:(lia) stream_pos) as [more Hmore].
    + destruct Hcase as [[-> _]|Hfull].
      * unfold stored_payloads.
        rewrite device_inbox_between_empty by done. simpl. lia.
      * lia.
    + rewrite Hmore. by eexists.
Qed.

End paging.

(** ** Messages to devices that do not exist *)

Section dropped.
Context {json : Type} (ujson_dumps : json → string)
  (ujson_loads : string → json).
Implicit Types (local : gmap string (gmap string json)) (o : op json).

Lemma expected_local_rows_unknown_device tbl stream_id local user_id device_id :
  (user_id, device_id) ∉ tbl →
  filter (λ r, di_user_id r = user_id ∧ di_device_id r = device_id)
         (expected_local_rows ujson_dumps tbl stream_id local) = [].
Proof.
  intros Hunknown. apply filter_none. intros r Hr [Hu Hd].
  apply elem_of_expected_local_rows in Hr
    as (u & mbd & dev & msg & _ & _ & Htbl & ->).
  simpl in *. by subst.
Qed.

(** A step of a history only adds rows at the next position, and never
    moves the generator back. *)
Lemma run_op_inbox o s r :
  r ∈ device_inbox (database (run_op ujson_dumps o s)) →
  r ∈ device_inbox (database s)
  ∨ di_stream_id r = get_current_token (device_inbox_id_gen s) + 1.
Proof.
  destruct_op o.
  - rewrite add_messages_to_device_inbox_eq. cbv zeta.
    destruct (charge _ budget); simpl; [|by left].
    intros [?|Hr]%elem_of_app; [by left|]. right.
    by apply elem_of_expected_local_rows in Hr as (? & ? & ? & ? & _ & _ & _ & ->).
  - rewrite add_messages_from_remote_to_device_inbox_eq. cbv zeta.
    destruct (charge _ budget); simpl; [|by left].
    destruct (decide (recorded (database s) origin message_id)); simpl;
      [by left|].
    intros [?|Hr]%elem_of_app; [by left|]. right.
    by apply elem_of_expected_local_rows in Hr as (? & ? & ? & ? & _ & _ & _ & ->).
  - rewrite delete_messages_for_device_eq.
    destruct (charge 2 budget); simpl; [|by left].
    intros [_ ?]%list_elem_of_filter. by left.
  - rewrite delete_device_msgs_for_remote_eq.
    destruct (charge 2 budget); simpl; by left.
  - by left.
Qed.

Lemma run_op_token o s :
  get_current_token (device_inbox_id_gen s)
  ≤ get_current_token (device_inbox_id_gen (run_op ujson_dumps o s)).
Proof.
  destruct_op o.
  - rewrite add_messages_to_device_inbox_eq. cbv zeta.
    destruct (charge _ budget); simpl; lia.
  - rewrite add_messages_from_remote_to_device_inbox_eq. cbv zeta.
    destruct (charge _ budget); simpl; lia.
  - rewrite delete_messages_for_device_eq. by destruct (charge 2 budget).
  - rewrite delete_device_msgs_for_remote_eq. by destruct (charge 2 budget).
  - done.
Qed.

(** A position that has been handed out and holds no row for a device
    never comes to hold one. *)
Lemma position_stays_empty user_id device_id stream_id ops s r :
  stream_id ≤ get_current_token (device_inbox_id_gen s) →
  (∀ r, r ∈ device_inbox (database s) →
     di_user_id r = user_id → di_device_id r = device_id →
     di_stream_id r ≠ stream_id) →
  r ∈ device_inbox (database (run_ops ujson_dumps ops s)) →
  di_user_id r = user_id → di_device_id r = device_id →
  di_stream_id r ≠ stream_id.
Proof.
  unfold run_ops. revert s.
  induction ops as [|o ops IH]; intros s Htoken Hempty; simpl; [by auto|].
  apply IH.
  - pose proof (run_op_token o s). lia.
  - intros r' Hr' Hu Hd. apply run_op_inbox in Hr' as [Hr'|Hr'].
    + by apply Hempty.
    + lia.
Qed.

(** Whatever the storage engine does, a read returns decoded rows of the
    device's window and nothing else. *)
Lemma get_new_messages_for_device_from_table user_id device_id
    last_stream_id current_stream_id limit budget s messages stream_pos :
  get_new_messages_for_device ujson_loads user_id device_id last_stream_id
    current_stream_id limit budget s = Returned (messages, stream_pos) →
  ∃ rows,
    messages = (λ r, ujson_loads (di_message_json r)) <$> rows
    ∧ rows ⊆ device_inbox_between (device_inbox (database s)) user_id
               device_id last_stream_id current_stream_id.
Proof.
  unfold get_new_messages_for_device.
  destruct (has_entity_changed _ _ _); simpl.
  - unfold_read_txn.
    destruct budget as [[|[|k]]|]; simpl; try done;
      (destruct (collect_messages _ _ _ _) as [[msgs pos]|] eqn:Hc; [|done]);
      intros [= <- <-]; rewrite collect_messages_eq in Hc; cbv zeta in Hc;
      unfold select_device_inbox in Hc; rewrite <- list_fmap_compose in Hc;
      (eexists; split; [|apply subseteq_take]);
      case_decide; [|destruct (last _)| |destruct (last _)]; by simplify_eq.
  - intros [= <- <-]. exists []. split; [done|]. apply list_subseteq_nil.
Qed.

(** C4.  A message for a device that the [devices] table does not know is
    dropped, by [add_messages_to_device_inbox] and by
    [add_messages_from_remote_to_device_inbox] alike.  The write inserts no
    row for that device.  The rest of the batch is not held back: on a
    healthy engine (and, for a remote batch, a first delivery) every message
    of the batch for a device that does exist has its row at the batch's
    position.  And the dropped message never comes back: whatever happens
    to the store afterwards, even if the device is registered later, every
    read for the device returns decoded rows of the table only, none of
    them at the batch's position.  The store is any store the methods can
    have produced. *)
Theorem unknown_device_messages_dropped user_id device_id s write
    local remote origin message_id now_ms budget :
  (user_id, device_id) ∉ devices (database s) →
  reachable ujson_dumps s →
  write = Enqueue local remote now_ms budget
  ∨ write = IngestRemote origin message_id local now_ms budget →
  let s' := run_op ujson_dumps write s in
  let stream_id := get_current_token (device_inbox_id_gen s) + 1 in
  filter (λ r, di_user_id r = user_id ∧ di_device_id r = device_id)
         (device_inbox (database s'))
  = filter (λ r, di_user_id r = user_id ∧ di_device_id r = device_id)
           (device_inbox (database s))
  ∧ (budget = None →
     write = Enqueue local remote now_ms budget
     ∨ ¬ recorded (database s) origin message_id →
     ∀ u messages_by_device dev message,
       local !! u = Some messages_by_device →
       messages_by_device !! dev = Some message →
       (u, dev) ∈ devices (database s) →
       DeviceInboxRow u dev stream_id (ujson_dumps message)
       ∈ device_inbox (database s'))
  ∧ (∀ ops last_stream_id current_stream_id limit budget' messages stream_pos,
       get_new_messages_for_device ujson_loads user_id device_id
         last_stream_id current_stream_id limit budget'
         (run_ops ujson_dumps ops s')
       = Returned (messages, stream_pos) →
       ∃ rows,
         messages = (λ r, ujson_loads (di_message_json r)) <$> rows
         ∧ Forall (λ r, r ∈ device_inbox
                            (database (run_ops ujson_dumps ops s'))
                        ∧ di_user_id r = user_id
                        ∧ di_device_id r = device_id
                        ∧ di_stream_id r ≠ stream_id)
                  rows).
Proof.
  intros Hunknown ([Hissued _] & _)%reachable_inv Hwrite. cbv zeta.
  assert (filter (λ r, di_user_id r = user_id ∧ di_device_id r = device_id)
            (device_inbox (database (run_op ujson_dumps write s)))
          = filter (λ r, di_user_id r = user_id ∧ di_device_id r = device_id)
              (device_inbox (database s))) as Hsame.
  { destruct Hwrite as [-> | ->]; unfold run_op.
    - rewrite add_messages_to_device_inbox_eq. cbv zeta.
      destruct (charge _ budget); simpl; [|done].
      rewrite filter_app, expected_local_rows_unknown_device by done.
      by rewrite app_nil_r.
    - rewrite add_messages_from_remote_to_device_inbox_eq. cbv zeta.
      destruct (charge _ budget); simpl; [|done].
      destruct (decide (recorded (database s) origin message_id)); simpl;
        [done|].
      rewrite filter_app, expected_local_rows_unknown_device by done.
      by rewrite app_nil_r. }
  split; [done|]. split.
  - intros -> Hfirst u mbd dev msg Hu Hdev Htbl.
    assert (DeviceInboxRow u dev
              (get_current_token (device_inbox_id_gen s) + 1)
              (ujson_dumps msg)
            ∈ expected_local_rows ujson_dumps (devices (database s))
                (get_current_token (device_inbox_id_gen s) + 1) local) as Hrow.
    { apply elem_of_expected_local_rows. by exists u, mbd, dev, msg. }
    destruct Hwrite as [-> | ->]; unfold run_op.
    + rewrite add_messages_to_device_inbox_eq. cbv zeta.
      rewrite charge_healthy. simpl. apply elem_of_app. by right.
    + rewrite add_messages_from_remote_to_device_inbox_eq. cbv zeta.
      rewrite charge_healthy. simpl.
      destruct Hfirst as [?|Hfirst]; [done|].
      rewrite decide_False by done. simpl. apply elem_of_app. by right.
  - intros ops last_stream_id current_stream_id limit budget' messages
      stream_pos Hread.
    apply get_new_messages_for_device_from_table in Hread
      as (rows & -> & Hrows).
    exists rows. split; [done|]. apply Forall_forall. intros r Hr.
    apply Hrows, elem_of_device_inbox_between in Hr as (Hr & Hu & Hd & _).
    split_and!; try done.
    eapply (position_stays_empty user_id device_id _ ops
              (run_op ujson_dumps write s)); try done.
    + pose proof (run_op_token write s) as Hstep.
      assert (get_current_token (device_inbox_id_gen s) + 1
              ≤ get_current_token
                  (device_inbox_id_gen (run_op ujson_dumps write s)));
        [|done].
      destruct Hwrite as [-> | ->]; unfold run_op.
      * rewrite add_messages_to_device_inbox_eq. cbv zeta.
        by destruct (charge _ budget).
      * rewrite add_messages_from_remote_to_device_inbox_eq. cbv zeta.
        by destruct (charge _ budget).
    + intros r' Hr' Hu' Hd'.
      assert (r' ∈ filter (λ r, di_user_id r = user_id
                                ∧ di_device_id r = device_id)
                     (device_inbox (database (run_op ujson_dumps write s))))
        as Hin by by apply list_elem_of_filter.
      rewrite Hsame in Hin. apply list_elem_of_filter in Hin as [_ Hin].
      rewrite Forall_forall in Hissued. specialize (Hissued _ Hin).
      simpl in Hissued. lia.
Qed.

End dropped.

(** ** The methods at work on the sample server *)

Lemma sample_reachable ops :
  reachable Sample.dumps (run_ops Sample.dumps ops Sample.empty_store).
Proof. by eexists ops, _, _, _, _, _. Qed.

(** A message enqueued at position [P] is read back by a read from [P - 1]
    to [P]. *)
Example enqueue_then_read :
  let '(result, s) :=
    Sample.enqueue (Sample.to_device "alice" "dev1" "m.test") ∅ 10 None
      Sample.empty_store in
  result = Returned 1
  ∧ Sample.read "alice" "dev1" 0 1 100 None s = Returned (["m.test"%string], 1).
Proof. vm_compute. done. Qed.

(** A message for a device that does not exist leaves nothing to read. *)
Example enqueue_unknown_device :
  let s :=
    (Sample.enqueue (Sample.to_device "bob" "dev2" "m.test") ∅ 10 None
       Sample.empty_store).2 in
  device_inbox (database s) = []
  ∧ Sample.read "bob" "dev2" 0 1 100 None s = Returned ([], 1).
Proof. vm_compute. done. Qed.

(** Three messages, pages of two: the first page ends at the second
    message's position, not at the current position. *)
Example full_page_resumes_at_last_row :
  Sample.read "alice" "dev1" 0 3 2 None Sample.busy_store
  = Returned (["m1"; "m2"]%string, 2).
Proof. vm_compute. done. Qed.

(** A sequence that stops after one page of one has read a front piece:
    the first message, with the cursor on it. *)
Example one_page_is_a_front_piece :
  read_sequence Sample.loads "alice" "dev1" 3 [(1%nat, None)] 0
    Sample.busy_store
  = Returned (["m1"]%string, 1).
Proof. vm_compute. done. Qed.

(** One position, two recipients, a limit of one: with [psycopg2] both
    rows come back. *)
Example read_all_exceeds_limit :
  ∃ rows,
    get_all_new_device_messages psycopg2 2 3 1 None Sample.busy_store
    = Returned rows
    ∧ length rows = 2%nat.
Proof. eexists. vm_compute. done. Qed.

(** The same call with [sqlite3]: the first query fetches the row [(3,)],
    and the second [execute], given that row as its bound, raises. *)
Example read_all_raises_on_sqlite3 :
  select_stream_ids (device_inbox (database Sample.busy_store)) 2 3 1
  = [StreamIdRow 3]
  ∧ get_all_new_device_messages sqlite3 2 3 1 None Sample.busy_store
    = Raised DatabaseError.
Proof. vm_compute. done. Qed.

(** The storage engine giving up at the commit leaves nothing behind,
    though the position is spent. *)
Example enqueue_rolled_back :
  Sample.enqueue Sample.fan_out Sample.relay 30 (Some 4%nat) Sample.two_messages
  = (Raised DatabaseError,
     MkStore (database Sample.two_messages) (MkIdGen 3)
       (device_inbox_stream_cache Sample.two_messages)
       (device_federation_outbox_stream_cache Sample.two_messages)).
Proof. vm_compute. done. Qed.

(** C7 at work: the fan-out is written at position 3 and 3 is returned. *)
Lemma add_messages_to_device_inbox_returns_position_witness :
  Sample.enqueue Sample.fan_out Sample.relay 30 None Sample.two_messages
  = (Returned 3, Sample.busy_store)
  ∧ (get_next (device_inbox_id_gen Sample.two_messages)).1 = 3
  ∧ get_to_device_stream_token Sample.busy_store = 3.
Proof.
  assert (Sample.enqueue Sample.fan_out Sample.relay 30 None Sample.two_messages
          = (Returned 3, Sample.busy_store)) as Hcall
    by (vm_compute; reflexivity).
  split; [exact Hcall|].
  destruct (add_messages_to_device_inbox_returns_position Sample.dumps
              _ _ _ _ _ _ _ Hcall) as (Hnext & Htoken & _).
  split; [exact Hnext|exact Htoken].
Defined.

(** C3 at work: the second delivery of [msg-1] from [serverA] changes no
    table. *)
Lemma add_messages_from_remote_to_device_inbox_idempotent_witness :
  ¬ recorded (database Sample.empty_store) "serverA" "msg-1"
  ∧ Sample.ingest_remote "serverA" "msg-1" Sample.remote_batch 100 None
      Sample.empty_store
    = (Returned (), Sample.delivered_once)
  ∧ database
      (Sample.ingest_remote "serverA" "msg-1" Sample.remote_batch 200 None
         Sample.delivered_once).2
    = database Sample.delivered_once
  ∧ (Sample.ingest_remote "serverA" "msg-1" Sample.remote_batch 200 None
       Sample.delivered_once).1
    = Returned ().
Proof.
  assert (¬ recorded (database Sample.empty_store) "serverA" "msg-1") as Hfresh
    by (by intros ?%Exists_nil).
  assert (Sample.ingest_remote "serverA" "msg-1" Sample.remote_batch 100 None
            Sample.empty_store
          = (Returned (), Sample.delivered_once)) as Hfirst
    by (vm_compute; reflexivity).
  split; [exact Hfresh|]. split; [exact Hfirst|].
  destruct (add_messages_from_remote_to_device_inbox_idempotent Sample.dumps
              _ _ _ _ 200 _ None _ _ _ _ Hfresh Hfirst
              (surjective_pairing _)) as (_ & _ & _ & Hsame & Hreturned).
  split; [exact Hsame|exact (Hreturned eq_refl)].
Defined.

(** C9 at work: the duplicate delivery moves the generator from 1 to 2 and
    marks carol at 2, with no row written. *)
Lemma add_messages_from_remote_to_device_inbox_duplicate_witness :
  recorded (database Sample.delivered_once) "serverA" "msg-1"
  ∧ let s' :=
      (Sample.ingest_remote "serverA" "msg-1" Sample.remote_batch 200 None
         Sample.delivered_once).2 in
    database s' = database Sample.delivered_once
    ∧ get_current_token (device_inbox_id_gen s') = 2
    ∧ device_inbox_stream_cache s' !! "carol"%string = Some 2.
Proof.
  assert (recorded (database Sample.delivered_once) "serverA" "msg-1") as Hdup
    by (apply Exists_cons; by left).
  split; [exact Hdup|]. cbv zeta.
  pose proof (add_messages_from_remote_to_device_inbox_duplicate Sample.dumps
                "serverA" "msg-1" Sample.remote_batch 200 None
                Sample.delivered_once Hdup) as Hthm.
  unfold Sample.ingest_remote.
  destruct (add_messages_from_remote_to_device_inbox _ _ _ _ _ _ _)
    as [result s'].
  destruct Hthm as (Hdb & Htoken & _ & Hreturned & Hmarked). cbn [snd].
  split; [exact Hdb|]. split; [exact Htoken|].
  destruct (Hmarked (Hreturned eq_refl) "carol"%string) as [Hcarol _].
  destruct (Hcarol ltac:(by eexists)) as [-> _]. vm_compute. reflexivity.
Defined.

(** C6 at work: two pages of two drain alice's first device. *)
Lemma read_sequence_complete_witness :
  reachable Sample.dumps Sample.busy_store
  ∧ read_sequence Sample.loads "alice" "dev1" 3
      [(2%nat, None); (2%nat, None)] 0 Sample.busy_store
    = Returned (["m1"; "m2"; "k1"]%string, 3)
  ∧ ["m1"; "m2"; "k1"]%string
    = stored_payloads Sample.loads Sample.busy_store "alice" "dev1" 0 3.
Proof.
  pose proof (sample_reachable Sample.history) as Hreach.
  assert (read_sequence Sample.loads "alice" "dev1" 3
            [(2%nat, None); (2%nat, None)] 0 Sample.busy_store
          = Returned (["m1"; "m2"; "k1"]%string, 3)) as Hseq
    by (vm_compute; reflexivity).
  split; [exact Hreach|]. split; [exact Hseq|].
  destruct (read_sequence_complete Sample.dumps Sample.loads _ _ _ _ _ _ _ _
              Hreach Hseq) as [_ Hall].
  exact (Hall eq_refl).
Defined.

(** C4 at work: bob has no tablet, so the fan-out leaves no row for it,
    while alice's second device gets its message. *)
Lemma unknown_device_messages_dropped_witness :
  (("bob", "tablet")%string ∉ devices (database Sample.two_messages))
  ∧ reachable Sample.dumps Sample.two_messages
  ∧ filter (λ r, di_user_id r = "bob"%string ∧ di_device_id r = "tablet"%string)
           (device_inbox (database Sample.busy_store))
    = filter (λ r, di_user_id r = "bob"%string
                   ∧ di_device_id r = "tablet"%string)
             (device_inbox (database Sample.two_messages))
  ∧ DeviceInboxRow "alice" "dev2" 3 "k2"
    ∈ device_inbox (database Sample.busy_store).
Proof.
  assert (("bob", "tablet")%string ∉ devices (database Sample.two_messages))
    as Hunknown
    by (apply (bool_decide_eq_false_1
                 (("bob", "tablet")%string
                  ∈ devices (database Sample.two_messages)));
        vm_compute; reflexivity).
  pose proof (sample_reachable (take 2 Sample.history)) as Hreach.
  split; [exact Hunknown|]. split; [exact Hreach|].
  destruct (unknown_device_messages_dropped Sample.dumps Sample.loads
              "bob" "tablet" Sample.two_messages
              (Enqueue Sample.fan_out Sample.relay 30 None)
              Sample.fan_out Sample.relay "" "" 30 None
              Hunknown Hreach (or_introl eq_refl)) as (Hnone & Hrest & _).
  split; [exact Hnone|].
  apply (Hrest eq_refl (or_introl eq_refl) "alice"%string
           (<[ "dev1" := "k1" ]> {[ "dev2" := "k2" ]})%string
           "dev2"%string "k2"%string);
    [vm_compute; reflexivity|vm_compute; reflexivity|].
  apply (bool_decide_eq_true_1
           (("alice", "dev2")%string ∈ devices (database Sample.two_messages))).
  vm_compute. reflexivity.
Defined.

(** C1 at work: a full page of two ends at position 2; a page of five is
    not full and ends at the current position 3; so for the one remote
    destination. *)
Lemma cursor_read_new_last_position_witness :
  Sample.read "alice" "dev1" 0 3 2 None Sample.busy_store
  = Returned (["m1"; "m2"]%string, 2)
  ∧ Sample.read "alice" "dev1" 0 3 5 None Sample.busy_store
    = Returned (["m1"; "m2"; "k1"]%string, 3)
  ∧ Sample.read_remote "remote.example" 0 3 1 None Sample.busy_store
    = Returned (["edu"]%string, 3).
Proof.
  destruct (cursor_read_new_last_position Sample.loads "alice" "dev1"
              "remote.example" 0 3 2 Sample.busy_store) as [Hdev _].
  destruct (cursor_read_new_last_position Sample.loads "alice" "dev1"
              "remote.example" 0 3 5 Sample.busy_store) as [Hdev' _].
  destruct (cursor_read_new_last_position Sample.loads "alice" "dev1"
              "remote.example" 0 3 1 Sample.busy_store) as [_ Hrem].
  destruct (Hdev ltac:(vm_compute; reflexivity)) as [Hfull _].
  destruct (Hdev' ltac:(vm_compute; reflexivity)) as [_ Hfewer].
  destruct (Hrem ltac:(vm_compute; reflexivity)) as [Hfull_remote _].
  split; [|split].
  - exact (Hfull (2, "m2"%string) ltac:(vm_compute; reflexivity)
             ltac:(vm_compute; reflexivity)).
  - exact (Hfewer ltac:(vm_compute; lia)).
  - exact (Hfull_remote (3, "edu"%string) ltac:(vm_compute; reflexivity)
             ltac:(vm_compute; reflexivity)).
Defined.

(** C10 at work: with a limit of 0 the read raises; with a limit of 1 it
    returns. *)
Lemma get_new_messages_for_device_total_witness :
  Sample.read "alice" "dev1" 0 3 0 None Sample.busy_store
  = Raised UnboundLocalError
  ∧ ∃ messages stream_pos,
      Sample.read "alice" "dev1" 0 3 1 None Sample.busy_store
      = Returned (messages, stream_pos).
Proof.
  destruct (get_new_messages_for_device_total Sample.loads "alice" "dev1" 0 3
              Sample.busy_store) as (Htotal & _ & Hzero).
  split.
  - exact Hzero.
  - destruct (Htotal 1%nat ltac:(lia)) as (messages & stream_pos & Hread & _).
    exists messages, stream_pos. exact Hread.
Defined.

(** * Further properties of the methods *)

(** ** Trimming *)

Lemma store_eta s :
  MkStore (database s) (device_inbox_id_gen s) (device_inbox_stream_cache s)
    (device_federation_outbox_stream_cache s) = s.
Proof. by destruct s. Qed.

Lemma device_inbox_between_trimmed tbl user_id device_id up_to_stream_id
    u d a c :
  device_inbox_between
    (delete_from_device_inbox tbl user_id device_id up_to_stream_id) u d a c
  = if decide ((u, d) = (user_id, device_id))
    then device_inbox_between tbl u d (Z.max a up_to_stream_id) c
    else device_inbox_between tbl u d a c.
Proof.
  unfold device_inbox_between, delete_from_device_inbox.
  rewrite list_filter_filter. case_decide as Heq.
  - injection Heq as -> ->. f_equal. apply list_filter_iff.
    intros r. unfold in_window. intuition lia.
  - f_equal. apply list_filter_iff. intros r. unfold in_window.
    split; [tauto|]. intros (-> & -> & ?). split; [split_and!; (done || lia)|].
    intros (-> & -> & _). by apply Heq.
Qed.

Lemma device_federation_outbox_between_trimmed tbl destination up_to_stream_id
    dest a c :
  device_federation_outbox_between
    (delete_from_device_federation_outbox tbl destination up_to_stream_id)
    dest a c
  = if decide (dest = destination)
    then device_federation_outbox_between tbl dest (Z.max a up_to_stream_id) c
    else device_federation_outbox_between tbl dest a c.
Proof.
  unfold device_federation_outbox_between,
    delete_from_device_federation_outbox.
  rewrite list_filter_filter. case_decide as Heq.
  - subst. f_equal. apply list_filter_iff.
    intros r. unfold in_window. intuition lia.
  - f_equal. apply list_filter_iff. intros r. unfold in_window.
    split; [tauto|]. intros (-> & ?). split; [split_and!; (done || lia)|].
    intros (-> & _). by apply Heq.
Qed.

(** X1.  [delete_messages_for_device] either raises and leaves the store as
    it was, or returns having removed exactly the rows of that device at
    positions up to [up_to_stream_id]: what the device holds in a window
    [(a, c]] afterwards is what it held in [(max a up_to_stream_id, c]],
    every other device holds what it held, and the other tables, the
    generator and the caches are untouched. *)
Theorem delete_messages_for_device_trims user_id device_id up_to_stream_id
    budget s :
  let '(result, s') :=
    delete_messages_for_device user_id device_id up_to_stream_id budget s in
  (result = Raised DatabaseError ∧ s' = s)
  ∨ (result = Returned ()
     ∧ (∀ r, r ∈ device_inbox (database s') ↔
          r ∈ device_inbox (database s)
          ∧ ¬ (di_user_id r = user_id ∧ di_device_id r = device_id
               ∧ di_stream_id r ≤ up_to_stream_id))
     ∧ (∀ a c,
          device_inbox_between (device_inbox (database s')) user_id device_id
            a c
          = device_inbox_between (device_inbox (database s)) user_id device_id
              (Z.max a up_to_stream_id) c)
     ∧ (∀ u d a c, (u, d) ≠ (user_id, device_id) →
          device_inbox_between (device_inbox (database s')) u d a c
          = device_inbox_between (device_inbox (database s)) u d a c)
     ∧ devices (database s') = devices (database s)
     ∧ device_federation_outbox (database s')
       = device_federation_outbox (database s)
     ∧ device_federation_inbox (database s')
       = device_federation_inbox (database s)
     ∧ device_inbox_id_gen s' = device_inbox_id_gen s
     ∧ device_inbox_stream_cache s' = device_inbox_stream_cache s
     ∧ device_federation_outbox_stream_cache s'
       = device_federation_outbox_stream_cache s).
Proof.
  rewrite delete_messages_for_device_eq.
  destruct (charge 2 budget); [right|left; by rewrite store_eta].
  simpl. split; [done|]. split.
  { intros r. unfold delete_from_device_inbox.
    rewrite list_elem_of_filter. tauto. }
  split.
  { intros a c. rewrite device_inbox_between_trimmed.
    by rewrite decide_True by done. }
  split; [|done].
  intros u d a c Hne. rewrite device_inbox_between_trimmed.
  by rewrite decide_False by done.
Qed.

(** X2.  [delete_device_msgs_for_remote] either raises and leaves the store
    as it was, or returns having removed exactly the outbox rows of that
    destination at positions up to [up_to_stream_id]: what is queued for it
    in a window [(a, c]] afterwards is what was queued in
    [(max a up_to_stream_id, c]], every other destination keeps its queue,
    and the local inboxes, the generator and the caches are untouched. *)
Theorem delete_device_msgs_for_remote_trims destination up_to_stream_id
    budget s :
  let '(result, s') :=
    delete_device_msgs_for_remote destination up_to_stream_id budget s in
  (result = Raised DatabaseError ∧ s' = s)
  ∨ (result = Returned ()
     ∧ (∀ r, r ∈ device_federation_outbox (database s') ↔
          r ∈ device_federation_outbox (database s)
          ∧ ¬ (fo_destination r = destination
               ∧ fo_stream_id r ≤ up_to_stream_id))
     ∧ (∀ a c,
          device_federation_outbox_between
            (device_federation_outbox (database s')) destination a c
          = device_federation_outbox_between
              (device_federation_outbox (database s)) destination
              (Z.max a up_to_stream_id) c)
     ∧ (∀ dest a c, dest ≠ destination →
          device_federation_outbox_between
            (device_federation_outbox (database s')) dest a c
          = device_federation_outbox_between
              (device_federation_outbox (database s)) dest a c)
     ∧ devices (database s') = devices (database s)
     ∧ device_inbox (database s') = device_inbox (database s)
     ∧ device_federation_inbox (database s')
       = device_federation_inbox (database s)
     ∧ device_inbox_id_gen s' = device_inbox_id_gen s
     ∧ device_inbox_stream_cache s' = device_inbox_stream_cache s
     ∧ device_federation_outbox_stream_cache s'
       = device_federation_outbox_stream_cache s).
Proof.
  rewrite delete_device_msgs_for_remote_eq.
  destruct (charge 2 budget); [right|left; by rewrite store_eta].
  simpl. split; [done|]. split.
  { intros r. unfold delete_from_device_federation_outbox.
    rewrite list_elem_of_filter. tauto. }
  split.
  { intros a c. rewrite device_federation_outbox_between_trimmed.
    by rewrite decide_True by done. }
  split; [|done].
  intros dest a c Hne. rewrite device_federation_outbox_between_trimmed.
  by rewrite decide_False by done.
Qed.

Section reads_after_trimming.
Context {json : Type} (ujson_loads : string → json).

(** A read under any behaviour of the storage engine: the engine may
    raise at the query or at the commit; [stream_pos] unbound is found out
    in between. *)
Lemma get_new_messages_for_device_any_budget user_id device_id
    last_stream_id current_stream_id limit budget s :
  get_new_messages_for_device ujson_loads user_id device_id last_stream_id
    current_stream_id limit budget s
  = let collected :=
      collect_messages ujson_loads
        (select_device_inbox (device_inbox (database s)) user_id device_id
           last_stream_id current_stream_id limit)
        current_stream_id limit in
    if has_entity_changed (device_inbox_stream_cache s) user_id last_stream_id
    then match budget with
         | Some 0%nat => Raised DatabaseError
         | Some 1%nat =>
             match collected with
             | Returned _ => Raised DatabaseError
             | Raised e => Raised e
             end
         | _ => collected
         end
    else Returned ([], current_stream_id).
Proof.
  unfold get_new_messages_for_device.
  destruct (has_entity_changed _ _ _); cbn [negb]; [|done].
  unfold_read_txn.
  destruct budget as [[|[|k]]|];
    cbn -[select_device_inbox collect_messages]; try done;
    by destruct (collect_messages _ _ _ _) as [[??]|].
Qed.

Lemma get_new_device_msgs_for_remote_any_budget destination last_stream_id
    current_stream_id limit budget s :
  get_new_device_msgs_for_remote ujson_loads destination last_stream_id
    current_stream_id limit budget s
  = let collected :=
      collect_messages ujson_loads
        (select_device_federation_outbox
           (device_federation_outbox (database s)) destination last_stream_id
           current_stream_id limit)
        current_stream_id limit in
    if has_entity_changed (device_federation_outbox_stream_cache s)
         destination last_stream_id
    then match budget with
         | Some 0%nat => Raised DatabaseError
         | Some 1%nat =>
             match collected with
             | Returned _ => Raised DatabaseError
             | Raised e => Raised e
             end
         | _ => collected
         end
    else Returned ([], current_stream_id).
Proof.
  unfold get_new_device_msgs_for_remote.
  destruct (has_entity_changed _ _ _); cbn [negb]; [|done].
  unfold_read_txn.
  destruct budget as [[|[|k]]|];
    cbn -[select_device_federation_outbox collect_messages]; try done;
    by destruct (collect_messages _ _ _ _) as [[??]|].
Qed.

(** A read sees the store through the cache and its one query only. *)
Lemma get_new_messages_for_device_ext user_id device_id last_stream_id
    current_stream_id limit budget s s' :
  device_inbox_stream_cache s' = device_inbox_stream_cache s →
  device_inbox_between (device_inbox (database s')) user_id device_id
    last_stream_id current_stream_id
  = device_inbox_between (device_inbox (database s)) user_id device_id
      last_stream_id current_stream_id →
  get_new_messages_for_device ujson_loads user_id device_id last_stream_id
    current_stream_id limit budget s'
  = get_new_messages_for_device ujson_loads user_id device_id last_stream_id
      current_stream_id limit budget s.
Proof.
  intros Hcache Hrows. rewrite !get_new_messages_for_device_any_budget.
  unfold select_device_inbox. by rewrite Hcache, Hrows.
Qed.

Lemma get_new_device_msgs_for_remote_ext destination last_stream_id
    current_stream_id limit budget s s' :
  device_federation_outbox_stream_cache s'
  = device_federation_outbox_stream_cache s →
  device_federation_outbox_between (device_federation_outbox (database s'))
    destination last_stream_id current_stream_id
  = device_federation_outbox_between (device_federation_outbox (database s))
      destination last_stream_id current_stream_id →
  get_new_device_msgs_for_remote ujson_loads destination last_stream_id
    current_stream_id limit budget s'
  = get_new_device_msgs_for_remote ujson_loads destination last_stream_id
      current_stream_id limit budget s.
Proof.
  intros Hcache Hrows. rewrite !get_new_device_msgs_for_remote_any_budget.
  unfold select_device_federation_outbox. by rewrite Hcache, Hrows.
Qed.

(** X3.  Acknowledging does not disturb paging.  After
    [delete_messages_for_device] has returned, a read for another device,
    or for the same device from a position at or beyond [up_to_stream_id],
    gives exactly what it gave before, whatever its limit and whatever the
    storage engine does; and a read for the trimmed device up to a
    position at or below [up_to_stream_id] finds nothing. *)
Theorem reads_after_delete_messages_for_device user_id device_id
    up_to_stream_id budget s s' :
  delete_messages_for_device user_id device_id up_to_stream_id budget s
  = (Returned (), s') →
  (∀ u d last_stream_id current_stream_id limit budget',
     (u, d) ≠ (user_id, device_id) ∨ up_to_stream_id ≤ last_stream_id →
     get_new_messages_for_device ujson_loads u d last_stream_id
       current_stream_id limit budget' s'
     = get_new_messages_for_device ujson_loads u d last_stream_id
         current_stream_id limit budget' s)
  ∧ (∀ last_stream_id current_stream_id limit,
       current_stream_id ≤ up_to_stream_id → (1 ≤ limit)%nat →
       get_new_messages_for_device ujson_loads user_id device_id
         last_stream_id current_stream_id limit None s'
       = Returned ([], current_stream_id)).
Proof.
  rewrite delete_messages_for_device_eq.
  destruct (charge 2 budget); [|done]. intros [= <-]. split.
  - intros u d a c limit budget' Hcase.
    apply get_new_messages_for_device_ext; [done|]. simpl.
    rewrite device_inbox_between_trimmed. case_decide as Heq; [|done].
    destruct Hcase as [?|Hle]; [done|]. by rewrite Z.max_l by lia.
  - intros a c limit Hc Hlimit.
    rewrite get_new_messages_for_device_healthy. simpl.
    destruct (has_entity_changed _ _ _); [|done].
    unfold select_device_inbox. rewrite device_inbox_between_trimmed.
    rewrite decide_True by done.
    rewrite device_inbox_between_empty by lia.
    rewrite take_nil, collect_messages_eq. simpl.
    by rewrite decide_True by lia.
Qed.

(** X4.  The same for the federation outbox.  After
    [delete_device_msgs_for_remote] has returned, a read for another
    destination, or for the same one from a position at or beyond
    [up_to_stream_id], gives exactly what it gave before; and a read for
    the trimmed destination up to a position at or below
    [up_to_stream_id] finds nothing. *)
Theorem reads_after_delete_device_msgs_for_remote destination
    up_to_stream_id budget s s' :
  delete_device_msgs_for_remote destination up_to_stream_id budget s
  = (Returned (), s') →
  (∀ dest last_stream_id current_stream_id limit budget',
     dest ≠ destination ∨ up_to_stream_id ≤ last_stream_id →
     get_new_device_msgs_for_remote ujson_loads dest last_stream_id
       current_stream_id limit budget' s'
     = get_new_device_msgs_for_remote ujson_loads dest last_stream_id
         current_stream_id limit budget' s)
  ∧ (∀ last_stream_id current_stream_id limit,
       current_stream_id ≤ up_to_stream_id → (1 ≤ limit)%nat →
       get_new_device_msgs_for_remote ujson_loads destination
         last_stream_id current_stream_id limit None s'
       = Returned ([], current_stream_id)).
Proof.
  rewrite delete_device_msgs_for_remote_eq.
  destruct (charge 2 budget); [|done]. intros [= <-]. split.
  - intros dest a c limit budget' Hcase.
    apply get_new_device_msgs_for_remote_ext; [done|]. simpl.
    rewrite device_federation_outbox_between_trimmed.
    case_decide as Heq; [|done].
    destruct Hcase as [?|Hle]; [done|]. by rewrite Z.max_l by lia.
  - intros a c limit Hc Hlimit.
    rewrite get_new_device_msgs_for_remote_healthy. simpl.
    destruct (has_entity_changed _ _ _); [|done].
    unfold select_device_federation_outbox.
    rewrite device_federation_outbox_between_trimmed.
    rewrite decide_True by done.
    unfold device_federation_outbox_between.
    rewrite filter_none by (intros r _; unfold in_window; lia).
    simpl. rewrite take_nil, collect_messages_eq. simpl.
    by rewrite decide_True by lia.
Qed.

End reads_after_trimming.

(** ** Paging through one destination's outbox *)

Lemma device_federation_outbox_between_strict s destination a c :
  positions_unique s →
  StronglySorted (λ x y, fo_stream_id x < fo_stream_id y)
    (device_federation_outbox_between (device_federation_outbox (database s))
       destination a c).
Proof.
  intros [_ Hnd]. unfold device_federation_outbox_between.
  apply sorted_strict; [apply order_by_sorted|].
  rewrite order_by_perm. apply NoDup_fmap_2_strong.
  - intros x y [(Hx' & _) Hx]%list_elem_of_filter
      [(Hy' & _) Hy]%list_elem_of_filter Heq.
    eapply NoDup_fmap_inj_on; [exact Hnd|done|done|]. simpl. congruence.
  - apply NoDup_filter. by apply NoDup_fmap_1 in Hnd.
Qed.

Lemma device_federation_outbox_between_resume tbl destination a c pos :
  a ≤ pos →
  device_federation_outbox_between tbl destination pos c
  = filter (λ y, pos < fo_stream_id y)
      (device_federation_outbox_between tbl destination a c).
Proof.
  intros Hle. unfold device_federation_outbox_between.
  rewrite <- order_by_filter. f_equal.
  rewrite list_filter_filter. apply list_filter_iff.
  intros r. unfold in_window. intuition lia.
Qed.

Lemma device_federation_outbox_between_empty tbl destination a c :
  c ≤ a → device_federation_outbox_between tbl destination a c = [].
Proof.
  intros Hle. unfold device_federation_outbox_between.
  rewrite filter_none; [done|]. intros r _. unfold in_window. lia.
Qed.

Lemma elem_of_device_federation_outbox_between tbl destination a c r :
  r ∈ device_federation_outbox_between tbl destination a c ↔
  r ∈ tbl ∧ fo_destination r = destination ∧ in_window a c (fo_stream_id r).
Proof.
  unfold device_federation_outbox_between.
  rewrite elem_of_order_by, list_elem_of_filter. tauto.
Qed.

Lemma outbox_cache_silent_no_rows s destination a c :
  caches_sound s →
  has_entity_changed (device_federation_outbox_stream_cache s) destination a
  = false →
  device_federation_outbox_between (device_federation_outbox (database s))
    destination a c = [].
Proof.
  intros [_ Hsound] Hsilent. unfold device_federation_outbox_between.
  rewrite filter_none; [done|].
  intros r Hr (Hd & Ha & _).
  rewrite (Hsound destination (fo_stream_id r) a) in Hsilent; [done| |done].
  apply list_elem_of_fmap. exists r. by rewrite Hd.
Qed.

Section remote_paging.
Context {json : Type} (ujson_dumps : json → string)
  (ujson_loads : string → json).

Lemma get_new_device_msgs_for_remote_step destination last_stream_id
    current_stream_id limit budget s messages stream_pos :
  positions_unique s → caches_sound s →
  get_new_device_msgs_for_remote ujson_loads destination last_stream_id
    current_stream_id limit budget s = Returned (messages, stream_pos) →
  stored_remote_payloads ujson_loads s destination last_stream_id
    current_stream_id
  = messages
    ++ stored_remote_payloads ujson_loads s destination stream_pos
         current_stream_id.
Proof.
  intros Huniq Hsound. rewrite get_new_device_msgs_for_remote_any_budget.
  cbv zeta. unfold stored_remote_payloads.
  set (tbl := device_federation_outbox (database s)).
  set (L := device_federation_outbox_between tbl destination last_stream_id
              current_stream_id).
  destruct (has_entity_changed _ _ _) eqn:Hchanged.
  - intros Hread.
    assert (collect_messages ujson_loads
              (select_device_federation_outbox tbl destination last_stream_id
                 current_stream_id limit) current_stream_id limit
            = Returned (messages, stream_pos)) as Hcollect.
    { destruct budget as [[|[|k]]|]; try done.
      by destruct (collect_messages _ _ _ _). }
    clear Hread. revert Hcollect.
    rewrite collect_messages_eq. cbv zeta.
    unfold select_device_federation_outbox.
    fold L. rewrite <- list_fmap_compose, length_fmap.
    case_decide as Hlen.
    + intros [= <- <-].
      rewrite (device_federation_outbox_between_empty _ _ current_stream_id)
        by done.
      rewrite take_ge; [by rewrite app_nil_r|].
      rewrite length_take in Hlen. lia.
    + rewrite fmap_last.
      destruct (last (take limit L)) as [r|] eqn:Hlast; [|done].
      simpl. intros [= <- <-].
      assert (r ∈ L) as Hr.
      { eapply subseteq_take, last_Some_elem_of, Hlast. }
      apply elem_of_device_federation_outbox_between
        in Hr as (_ & _ & [Hlow _]).
      rewrite (device_federation_outbox_between_resume _ _ last_stream_id)
        by lia.
      fold L. rewrite <- fmap_app. f_equal.
      apply (take_then_beyond fo_stream_id); [|done].
      by apply device_federation_outbox_between_strict.
  - intros [= <- <-]. unfold L, tbl.
    rewrite (outbox_cache_silent_no_rows s) by done.
    by rewrite (device_federation_outbox_between_empty _ _ current_stream_id)
      by done.
Qed.

(** X5.  Paging through a destination's outbox neither repeats nor skips.
    On any store the methods can have produced, take any sequence of
    [get_new_device_msgs_for_remote] reads for one destination against the
    same [current_stream_id], each starting at the position the previous
    one returned.  What the reads returned, put end to end, is a front
    piece of what is queued for the destination in
    [(initial, current_stream_id]], oldest first, and what is queued beyond
    the position the sequence ended at is exactly the rest; once the
    sequence has reached [current_stream_id], what was returned is all of
    it. *)
Theorem read_sequence_remote_complete destination current_stream_id reads
    initial_stream_id s payloads final_pos :
  reachable ujson_dumps s →
  read_sequence_remote ujson_loads destination current_stream_id reads
    initial_stream_id s = Returned (payloads, final_pos) →
  stored_remote_payloads ujson_loads s destination initial_stream_id
    current_stream_id
  = payloads
    ++ stored_remote_payloads ujson_loads s destination final_pos
         current_stream_id
  ∧ (final_pos = current_stream_id →
     payloads
     = stored_remote_payloads ujson_loads s destination initial_stream_id
         current_stream_id).
Proof.
  intros (_ & Huniq & Hsound)%reachable_inv Hseq.
  assert (stored_remote_payloads ujson_loads s destination initial_stream_id
            current_stream_id
          = payloads
            ++ stored_remote_payloads ujson_loads s destination final_pos
                 current_stream_id) as Hsplit.
  { revert initial_stream_id payloads Hseq.
    induction reads as [|[limit budget] reads IH]; intros a payloads; simpl.
    - by intros [= <- <-].
    - destruct (get_new_device_msgs_for_remote _ _ _ _ _ _ _)
        as [[messages stream_pos]|] eqn:Hread; [|done].
      destruct (read_sequence_remote _ _ _ _ _ _) as [[more final]|] eqn:Hrest;
        [|done].
      intros [= <- <-].
      rewrite (get_new_device_msgs_for_remote_step _ _ _ _ _ _ _ _ Huniq
                 Hsound Hread).
      rewrite (IH _ _ Hrest). by rewrite app_assoc. }
  split; [done|]. intros ->. rewrite Hsplit. unfold stored_remote_payloads.
  rewrite device_federation_outbox_between_empty by done.
  by rewrite app_nil_r.
Qed.

(** X6.  Paging through a device's inbox gets to the end.  On any store the
    methods can have produced, with a healthy storage engine and a limit
    of at least 1, any run of more reads than there are messages stored
    for the device in [(initial, current_stream_id]] returns, ends at
    [current_stream_id], and has returned exactly those messages. *)
Theorem read_sequence_reaches_current user_id device_id current_stream_id
    limit n initial_stream_id s :
  reachable ujson_dumps s → (1 ≤ limit)%nat →
  (length (stored_payloads ujson_loads s user_id device_id initial_stream_id
             current_stream_id) < n)%nat →
  read_sequence ujson_loads user_id device_id current_stream_id
    (replicate n (limit, None)) initial_stream_id s
  = Returned (stored_payloads ujson_loads s user_id device_id
                initial_stream_id current_stream_id, current_stream_id).
Proof.
  intros (_ & Huniq & Hsound)%reachable_inv Hlimit Hn.
  destruct (read_sequence_drains ujson_loads user_id device_id
              current_stream_id limit n initial_stream_id s Huniq Hsound
              Hlimit Hn) as [payloads Hseq].
  rewrite Hseq. do 2 f_equal.
  pose proof (read_sequence_front ujson_loads _ _ _ _ _ _ _ _ Huniq Hsound
                Hseq) as Hsplit.
  rewrite Hsplit. unfold stored_payloads.
  rewrite (device_inbox_between_empty _ _ _ current_stream_id) by done.
  by rewrite app_nil_r.
Qed.

End remote_paging.

(** ** What every reachable store satisfies *)

Section reachable_stores.
Context {json : Type} (ujson_dumps : json → string)
  (ujson_loads : string → json).

(** X7.  On any store the methods can have produced: no stored position
    is beyond the current token; a device holds at most one message per
    position and a destination at most one batch per position; and
    neither cache ever answers "unchanged" for an entity that has a row
    after the position asked about. *)
Theorem reachable_store_invariants s :
  reachable ujson_dumps s →
  (∀ r, r ∈ device_inbox (database s) →
     di_stream_id r ≤ get_to_device_stream_token s)
  ∧ (∀ r, r ∈ device_federation_outbox (database s) →
       fo_stream_id r ≤ get_to_device_stream_token s)
  ∧ (∀ r r', r ∈ device_inbox (database s) → r' ∈ device_inbox (database s) →
       di_user_id r = di_user_id r' → di_device_id r = di_device_id r' →
       di_stream_id r = di_stream_id r' → r = r')
  ∧ (∀ r r', r ∈ device_federation_outbox (database s) →
       r' ∈ device_federation_outbox (database s) →
       fo_destination r = fo_destination r' →
       fo_stream_id r = fo_stream_id r' → r = r')
  ∧ NoDup (device_inbox (database s))
  ∧ NoDup (device_federation_outbox (database s))
  ∧ (∀ r pos, r ∈ device_inbox (database s) → pos < di_stream_id r →
       has_entity_changed (device_inbox_stream_cache s) (di_user_id r) pos
       = true)
  ∧ (∀ r pos, r ∈ device_federation_outbox (database s) →
       pos < fo_stream_id r →
       has_entity_changed (device_federation_outbox_stream_cache s)
         (fo_destination r) pos = true).
Proof.
  intros ([Hi1 Hi2] & [Hu1 Hu2] & [Hs1 Hs2])%reachable_inv.
  rewrite Forall_forall in Hi1. rewrite Forall_forall in Hi2.
  split_and!; try done.
  - intros r r' Hr Hr' ???.
    eapply NoDup_fmap_inj_on; [exact Hu1|done|done|]. simpl. congruence.
  - intros r r' Hr Hr' ??.
    eapply NoDup_fmap_inj_on; [exact Hu2|done|done|]. simpl. congruence.
  - by apply NoDup_fmap_1 in Hu1.
  - by apply NoDup_fmap_1 in Hu2.
  - intros r pos Hr Hpos. eapply Hs1; [|done].
    by apply (list_elem_of_fmap_2 (λ r, (di_user_id r, di_stream_id r))).
  - intros r pos Hr Hpos. eapply Hs2; [|done].
    by apply (list_elem_of_fmap_2 (λ r, (fo_destination r, fo_stream_id r))).
Qed.

(** X8.  The change cache changes no answer.  On any store the methods can
    have produced, with a limit of at least 1 and a healthy storage engine,
    each cursor reader returns exactly what its query alone would have
    given, whether or not the cache let it through to storage. *)
Theorem change_cache_is_transparent user_id device_id destination
    last_stream_id current_stream_id limit s :
  reachable ujson_dumps s → (1 ≤ limit)%nat →
  get_new_messages_for_device ujson_loads user_id device_id last_stream_id
    current_stream_id limit None s
  = collect_messages ujson_loads
      (select_device_inbox (device_inbox (database s)) user_id device_id
         last_stream_id current_stream_id limit)
      current_stream_id limit
  ∧ get_new_device_msgs_for_remote ujson_loads destination last_stream_id
      current_stream_id limit None s
    = collect_messages ujson_loads
        (select_device_federation_outbox
           (device_federation_outbox (database s)) destination last_stream_id
           current_stream_id limit)
        current_stream_id limit.
Proof.
  intros (_ & _ & Hsound)%reachable_inv Hlimit. split.
  - rewrite get_new_messages_for_device_healthy.
    destruct (has_entity_changed _ _ _) eqn:Hsilent; [done|].
    unfold select_device_inbox.
    rewrite (cache_silent_no_rows s) by done.
    rewrite take_nil, collect_messages_eq. simpl.
    by rewrite decide_True by lia.
  - rewrite get_new_device_msgs_for_remote_healthy.
    destruct (has_entity_changed _ _ _) eqn:Hsilent; [done|].
    unfold select_device_federation_outbox.
    rewrite (outbox_cache_silent_no_rows s) by done.
    rewrite take_nil, collect_messages_eq. simpl.
    by rewrite decide_True by lia.
Qed.

End reachable_stores.

(** ** Where a read can leave the cursor *)

Section cursor_bounds.
Context {json : Type} (ujson_loads : string → json).

Lemma collect_messages_bounds (rows : list (Z * string)) current_stream_id
    limit messages stream_pos :
  (length rows ≤ limit)%nat →
  collect_messages ujson_loads rows current_stream_id limit
  = Returned (messages, stream_pos) →
  messages = (λ row, ujson_loads row.2) <$> rows
  ∧ (stream_pos = current_stream_id
     ∨ length messages = limit
       ∧ ∃ message_json, last rows = Some (stream_pos, message_json)).
Proof.
  intros Hle. rewrite collect_messages_eq. cbv zeta.
  case_decide as Hlen.
  - intros [= <- <-]. split; [done|by left].
  - destruct (last rows) as [[pos js]|] eqn:Hlast; [|done].
    intros [= <- <-]. split; [done|]. right. rewrite length_fmap.
    split; [lia|]. by exists js.
Qed.

(** X9.  A cursor read never returns more than [limit] messages and never
    leaves the cursor outside the window it was asked about.  Whenever
    either reader returns, whatever the store and the storage engine, the
    position it hands back is [current_stream_id], or else the page is
    full and the position is that of a stored row in
    [(last_stream_id, current_stream_id]]. *)
Theorem cursor_read_bounds user_id device_id destination last_stream_id
    current_stream_id limit budget s messages stream_pos :
  get_new_messages_for_device ujson_loads user_id device_id last_stream_id
    current_stream_id limit budget s = Returned (messages, stream_pos)
  ∨ get_new_device_msgs_for_remote ujson_loads destination last_stream_id
      current_stream_id limit budget s = Returned (messages, stream_pos) →
  (length messages ≤ limit)%nat
  ∧ (stream_pos = current_stream_id
     ∨ length messages = limit
       ∧ last_stream_id < stream_pos ∧ stream_pos ≤ current_stream_id).
Proof.
  intros [Hread|Hread].
  - rewrite get_new_messages_for_device_any_budget in Hread.
    cbv zeta in Hread.
    destruct (has_entity_changed _ _ _).
    + assert (collect_messages ujson_loads
                (select_device_inbox (device_inbox (database s)) user_id
                   device_id last_stream_id current_stream_id limit)
                current_stream_id limit
              = Returned (messages, stream_pos)) as Hcollect.
      { destruct budget as [[|[|k]]|]; try done.
        by destruct (collect_messages _ _ _ _). }
      pose proof (select_device_inbox_length (device_inbox (database s))
                    user_id device_id last_stream_id current_stream_id limit)
        as Hlen.
      apply collect_messages_bounds in Hcollect as [-> Hpos]; [|done].
      rewrite length_fmap. split; [done|].
      destruct Hpos as [?|[Hfull [js Hlast]]]; [by left|right].
      rewrite length_fmap in Hfull.
      split; [done|]. unfold select_device_inbox in Hlast.
      rewrite fmap_last in Hlast.
      destruct (last (take limit _)) as [r|] eqn:Hr; [|done].
      simpl in Hlast. injection Hlast as <- _.
      apply last_Some_elem_of, subseteq_take,
        elem_of_device_inbox_between in Hr as (_ & _ & _ & Hw).
      exact Hw.
    + injection Hread as <- <-. simpl. split; [lia|by left].
  - rewrite get_new_device_msgs_for_remote_any_budget in Hread.
    cbv zeta in Hread.
    destruct (has_entity_changed _ _ _).
    + assert (collect_messages ujson_loads
                (select_device_federation_outbox
                   (device_federation_outbox (database s)) destination
                   last_stream_id current_stream_id limit)
                current_stream_id limit
              = Returned (messages, stream_pos)) as Hcollect.
      { destruct budget as [[|[|k]]|]; try done.
        by destruct (collect_messages _ _ _ _). }
      assert (length (select_device_federation_outbox
                        (device_federation_outbox (database s)) destination
                        last_stream_id current_stream_id limit) ≤ limit)%nat
        as Hlen.
      { unfold select_device_federation_outbox.
        rewrite length_fmap, length_take. lia. }
      apply collect_messages_bounds in Hcollect as [-> Hpos]; [|done].
      rewrite length_fmap. split; [done|].
      destruct Hpos as [?|[Hfull [js Hlast]]]; [by left|right].
      rewrite length_fmap in Hfull.
      split; [done|]. unfold select_device_federation_outbox in Hlast.
      rewrite fmap_last in Hlast.
      destruct (last (take limit _)) as [r|] eqn:Hr; [|done].
      simpl in Hlast. injection Hlast as <- _.
      apply last_Some_elem_of, subseteq_take,
        elem_of_device_federation_outbox_between in Hr as (_ & _ & Hw).
      exact Hw.
    + injection Hread as <- <-. simpl. split; [lia|by left].
Qed.

End cursor_bounds.

(** ** More about the two writers *)

Section writers.
Context {json : Type} (ujson_dumps : json → string)
  (ujson_loads : string → json).
Implicit Types (local : gmap string (gmap string json))
  (remote : gmap string json).

(** X11.  [add_messages_from_remote_to_device_inbox] is all or nothing
    and never touches the federation outbox.  Whatever the batch and the
    storage engine: the outbox, its cache and the [devices] table are as
    before; and either the call raises and no table has changed, or it
    returns and the pair is recorded, with no table changed if it already
    was, and otherwise the dedup row and the batch's rows for existing
    devices appended together. *)
Theorem add_messages_from_remote_to_device_inbox_atomic origin message_id
    local now_ms budget s :
  let '(result, s') :=
    add_messages_from_remote_to_device_inbox ujson_dumps origin message_id
      local now_ms budget s in
  let stream_id := get_current_token (device_inbox_id_gen s) + 1 in
  device_federation_outbox (database s') = device_federation_outbox (database s)
  ∧ device_federation_outbox_stream_cache s'
    = device_federation_outbox_stream_cache s
  ∧ devices (database s') = devices (database s)
  ∧ (result = Raised DatabaseError
     ∧ database s' = database s
     ∧ device_inbox_stream_cache s' = device_inbox_stream_cache s
     ∨ result = Returned ()
       ∧ recorded (database s') origin message_id
       ∧ (recorded (database s) origin message_id →
          database s' = database s)
       ∧ (¬ recorded (database s) origin message_id →
          device_federation_inbox (database s')
          = device_federation_inbox (database s)
              ++ [FederationInboxRow origin message_id now_ms]
          ∧ device_inbox (database s')
            = device_inbox (database s)
                ++ expected_local_rows ujson_dumps (devices (database s))
                     stream_id local)).
Proof.
  rewrite add_messages_from_remote_to_device_inbox_eq. cbv zeta.
  destruct (charge _ budget); simpl.
  - destruct (decide (recorded (database s) origin message_id)) as [Hr|Hr];
      simpl; (split; [done|]); (split; [done|]); (split; [done|]); right;
      (split; [done|]).
    + split; [done|]. split; [done|]. by intros ?.
    + split; [apply recorded_insert_inbox|]. split; [by intros ?|done].
  - split; [done|]. split; [done|]. split; [done|]. by left.
Qed.

(** X12.  Change markers are recorded after the commit and only then.  If
    [add_messages_to_device_inbox] raises, both caches are as before.  If
    it returns a position, every user key of the local map (whether or not
    any of its devices exists) and every destination of the remote map
    answers "changed" for every position below it, and every other entry
    of either cache is as before. *)
Theorem add_messages_to_device_inbox_marks local remote now_ms budget s :
  let '(result, s') :=
    add_messages_to_device_inbox ujson_dumps local remote now_ms budget s in
  (∀ e, result = Raised e →
     device_inbox_stream_cache s' = device_inbox_stream_cache s
     ∧ device_federation_outbox_stream_cache s'
       = device_federation_outbox_stream_cache s)
  ∧ (∀ stream_id, result = Returned stream_id →
       (∀ user_id pos, is_Some (local !! user_id) → pos < stream_id →
          has_entity_changed (device_inbox_stream_cache s') user_id pos = true)
       ∧ (∀ user_id, local !! user_id = None →
            device_inbox_stream_cache s' !! user_id
            = device_inbox_stream_cache s !! user_id)
       ∧ (∀ destination pos, is_Some (remote !! destination) →
            pos < stream_id →
            has_entity_changed (device_federation_outbox_stream_cache s')
              destination pos = true)
       ∧ (∀ destination, remote !! destination = None →
            device_federation_outbox_stream_cache s' !! destination
            = device_federation_outbox_stream_cache s !! destination)).
Proof.
  rewrite add_messages_to_device_inbox_eq. cbv zeta.
  destruct (charge _ budget); simpl; (split; [done|]); [|done].
  intros ? [= <-]. split_and!.
  - intros u pos Hu Hpos.
    eapply has_entity_changed_marked; [|done].
    rewrite lookup_mark_all_changed. by rewrite decide_True by by apply elem_of_keys.
  - intros u Hu. rewrite lookup_mark_all_changed, decide_False; [done|].
    rewrite elem_of_keys, Hu. by intros [].
  - intros dest pos Hd Hpos.
    eapply has_entity_changed_marked; [|done].
    rewrite lookup_mark_all_changed. by rewrite decide_True by by apply elem_of_keys.
  - intros dest Hd. rewrite lookup_mark_all_changed, decide_False; [done|].
    rewrite elem_of_keys, Hd. by intros [].
Qed.

Lemma filter_key_unique {A K} (key : A → K) `{!EqDecision K} (l : list A) r :
  NoDup (key <$> l) → r ∈ l → filter (λ x, key x = key r) l = [r].
Proof.
  induction l as [|x l IH]; [by intros _ ?%elem_of_nil|].
  rewrite fmap_cons, NoDup_cons. intros [Hx Hnd] Hr.
  rewrite filter_cons. apply elem_of_cons in Hr as [->|Hr].
  - rewrite decide_True by done. f_equal. apply filter_none.
    intros y Hy Heq. apply Hx. rewrite <- Heq. by apply list_elem_of_fmap_2.
  - rewrite decide_False; [by apply IH|].
    intros Heq. apply Hx. rewrite Heq. by apply list_elem_of_fmap_2.
Qed.

Lemma order_by_singleton {A} (key : A → Z) (x : A) : order_by key [x] = [x].
Proof. done. Qed.

(** The window that holds just the rows of a batch written at the next
    position. *)
Lemma filter_fresh_window {A} (pos : A → Z) (P : A → Prop)
    `{!∀ x, Decision (P x)} (old new : list A) current :
  Forall (λ r, pos r ≤ current) old →
  Forall (λ r, pos r = current + 1) new →
  filter (λ r, P r ∧ in_window (current + 1 - 1) (current + 1) (pos r))
         (old ++ new)
  = filter P new.
Proof.
  intros Hold Hnew. rewrite filter_app, filter_none.
  - simpl. rewrite Forall_forall in Hnew. clear Hold.
    induction new as [|x new IH]; [done|].
    rewrite !filter_cons.
    assert (pos x = current + 1) as Hx by (apply Hnew; by left).
    rewrite IH by (intros y Hy; apply Hnew; by right).
    destruct (decide (P x)).
    + rewrite decide_True; [done|]. unfold in_window. split; [done|lia].
    + by rewrite decide_False by tauto.
  - rewrite Forall_forall in Hold. intros r Hr [_ [Hw _]].
    specialize (Hold _ Hr). simpl in Hold. lia.
Qed.

(** Reading the window of a batch that was just appended. *)
Lemma read_back_local local s s' user_id messages_by_device device_id message
    limit :
  Forall (λ r, di_stream_id r ≤ get_current_token (device_inbox_id_gen s))
         (device_inbox (database s)) →
  let stream_id := get_current_token (device_inbox_id_gen s) + 1 in
  device_inbox (database s')
  = device_inbox (database s)
      ++ expected_local_rows ujson_dumps (devices (database s)) stream_id
           local →
  device_inbox_stream_cache s'
  = mark_all_changed (map_to_list local).*1 stream_id
      (device_inbox_stream_cache s) →
  local !! user_id = Some messages_by_device →
  messages_by_device !! device_id = Some message →
  (1 ≤ limit)%nat →
  get_new_messages_for_device ujson_loads user_id device_id (stream_id - 1)
    stream_id limit None s'
  = Returned
      (if decide ((user_id, device_id) ∈ devices (database s))
       then [ujson_loads (ujson_dumps message)] else [],
       stream_id).
Proof.
  intros Hissued stream_id Hinbox Hcache Hu Hd Hlimit.
  rewrite get_new_messages_for_device_healthy, Hinbox, Hcache.
  erewrite has_entity_changed_marked; [| |by apply Z.lt_sub_pos].
  2: { rewrite lookup_mark_all_changed.
       rewrite decide_True by (apply elem_of_keys; by eexists). done. }
  unfold select_device_inbox, device_inbox_between.
  rewrite (list_filter_iff _
             (λ r, (di_user_id r = user_id ∧ di_device_id r = device_id)
                   ∧ in_window
                       (get_current_token (device_inbox_id_gen s) + 1 - 1)
                       (get_current_token (device_inbox_id_gen s) + 1)
                       (di_stream_id r))) by (intros r; tauto).
  rewrite (filter_fresh_window di_stream_id) by
    (done || apply expected_local_rows_stream_id).
  rewrite collect_messages_eq. cbv zeta.
  destruct (decide ((user_id, device_id) ∈ devices (database s)))
    as [Hin|Hnot].
  - assert (DeviceInboxRow user_id device_id stream_id (ujson_dumps message)
            ∈ expected_local_rows ujson_dumps (devices (database s))
                stream_id local) as Hrow.
    { apply elem_of_expected_local_rows.
      by exists user_id, messages_by_device, device_id, message. }
    pose proof (filter_key_unique
                  (λ r, (di_user_id r, di_device_id r)) _ _
                  (expected_local_rows_NoDup ujson_dumps _ _ _) Hrow)
      as Hone.
    simpl in Hone.
    rewrite (list_filter_iff
               (λ r, di_user_id r = user_id ∧ di_device_id r = device_id)
               (λ r, (di_user_id r, di_device_id r) = (user_id, device_id)))
      by (intros r; split; [by intros [-> ->]|by intros [= -> ->]]).
    fold stream_id. rewrite Hone. simpl.
    destruct limit as [|[|limit]]; [lia|done|done].
  - rewrite expected_local_rows_unknown_device by done. simpl.
    rewrite take_nil. simpl. by rewrite decide_True by lia.
Qed.

(** X13.  What is enqueued can be read back.  On any store the methods can
    have produced, once [add_messages_to_device_inbox] has returned
    position [p], a read from [p - 1] to [p] with a limit of at least 1
    returns, for a device addressed in the batch, exactly its message
    (through [ujson.dumps] and [ujson.loads]) if the device exists and
    nothing if it does not, and for a destination of the batch exactly its
    EDU; the position handed back is [p]. *)
Theorem enqueue_then_read_round_trip local remote now_ms budget s stream_id s'
    limit :
  reachable ujson_dumps s →
  add_messages_to_device_inbox ujson_dumps local remote now_ms budget s
  = (Returned stream_id, s') →
  (1 ≤ limit)%nat →
  (∀ user_id messages_by_device device_id message,
     local !! user_id = Some messages_by_device →
     messages_by_device !! device_id = Some message →
     get_new_messages_for_device ujson_loads user_id device_id
       (stream_id - 1) stream_id limit None s'
     = Returned
         (if decide ((user_id, device_id) ∈ devices (database s))
          then [ujson_loads (ujson_dumps message)] else [],
          stream_id))
  ∧ (∀ destination edu,
       remote !! destination = Some edu →
       get_new_device_msgs_for_remote ujson_loads destination
         (stream_id - 1) stream_id limit None s'
       = Returned ([ujson_loads (ujson_dumps edu)], stream_id)).
Proof.
  intros ([Hi1 Hi2] & _ & _)%reachable_inv.
  rewrite add_messages_to_device_inbox_eq. cbv zeta.
  destruct (charge _ budget); [|done]. intros [= <- <-] Hlimit. split.
  - intros u mbd d m Hu Hd.
    by apply (read_back_local local s _ u mbd d m).
  - intros dest edu Hd. unfold get_current_token in *.
    rewrite get_new_device_msgs_for_remote_healthy. simpl.
    erewrite has_entity_changed_marked; [| |by apply Z.lt_sub_pos].
    2: { rewrite lookup_mark_all_changed.
         rewrite decide_True by (apply elem_of_keys; by eexists). done. }
    unfold select_device_federation_outbox, device_federation_outbox_between.
    rewrite (filter_fresh_window fo_stream_id (λ r, fo_destination r = dest)).
    2: done.
    2: { apply Forall_forall. intros r Hr.
         by apply elem_of_federation_outbox_rows in Hr as (? & ? & _ & ->). }
    assert (FederationOutboxRow dest
              (id_gen_current (device_inbox_id_gen s) + 1) now_ms
              (ujson_dumps edu)
            ∈ federation_outbox_rows ujson_dumps
                (id_gen_current (device_inbox_id_gen s) + 1) now_ms remote)
      as Hrow.
    { apply elem_of_federation_outbox_rows. by exists dest, edu. }
    pose proof (filter_key_unique fo_destination _ _
                  (federation_outbox_rows_NoDup ujson_dumps _ _ _) Hrow)
      as Hone.
    simpl in Hone. rewrite Hone. simpl.
    rewrite collect_messages_eq. cbv zeta.
    destruct limit as [|[|limit]]; [lia|done|done].
Qed.

(** X16.  A first delivery can be read back, a repeated one adds nothing.
    On any store the methods can have produced, once
    [add_messages_from_remote_to_device_inbox] has returned: if the pair
    was not recorded before, a read from [p - 1] to [p] (the position the
    call took) with a limit of at least 1 returns, for a device addressed
    in the batch, exactly its message if the device exists and nothing if
    it does not; if the pair was recorded, the same read returns nothing
    for any device. *)
Theorem ingest_then_read_round_trip origin message_id local now_ms budget s s'
    limit :
  reachable ujson_dumps s →
  add_messages_from_remote_to_device_inbox ujson_dumps origin message_id
    local now_ms budget s = (Returned (), s') →
  (1 ≤ limit)%nat →
  let stream_id := get_current_token (device_inbox_id_gen s) + 1 in
  (¬ recorded (database s) origin message_id →
   ∀ user_id messages_by_device device_id message,
     local !! user_id = Some messages_by_device →
     messages_by_device !! device_id = Some message →
     get_new_messages_for_device ujson_loads user_id device_id
       (stream_id - 1) stream_id limit None s'
     = Returned
         (if decide ((user_id, device_id) ∈ devices (database s))
          then [ujson_loads (ujson_dumps message)] else [],
          stream_id))
  ∧ (recorded (database s) origin message_id →
     ∀ user_id device_id,
       get_new_messages_for_device ujson_loads user_id device_id
         (stream_id - 1) stream_id limit None s'
       = Returned ([], stream_id)).
Proof.
  intros ([Hi1 Hi2] & _ & _)%reachable_inv.
  rewrite add_messages_from_remote_to_device_inbox_eq. cbv zeta.
  destruct (charge _ budget); [|done]. intros [= <-] Hlimit. split.
  - intros Hfresh u mbd d m Hu Hd.
    apply (read_back_local local s _ u mbd d m); try done.
    simpl. by rewrite decide_False by done.
  - intros Hdup u d. rewrite get_new_messages_for_device_healthy. simpl.
    rewrite decide_True by done.
    destruct (has_entity_changed _ _ _); [|done].
    unfold select_device_inbox, device_inbox_between.
    rewrite filter_none.
    + simpl. rewrite take_nil, collect_messages_eq. simpl.
      by rewrite decide_True by lia.
    + rewrite Forall_forall in Hi1. intros r Hr (_ & _ & [Hlow _]).
      specialize (Hi1 _ Hr). simpl in Hi1. lia.
Qed.

End writers.

(** ** Deduplication is for good *)

Section dedup.
Context {json : Type} (ujson_dumps : json → string).

Lemma run_op_recorded (o : op json) s from_server delivery_id :
  recorded (database s) from_server delivery_id →
  recorded (database (run_op ujson_dumps o s)) from_server delivery_id.
Proof.
  unfold recorded. intros Hrec. destruct_op o.
  - rewrite add_messages_to_device_inbox_eq. cbv zeta.
    by destruct (charge _ budget).
  - rewrite add_messages_from_remote_to_device_inbox_eq. cbv zeta.
    destruct (charge _ budget); simpl; [|done].
    case_decide; simpl; [done|]. apply Exists_app. by left.
  - rewrite delete_messages_for_device_eq. by destruct (charge 2 budget).
  - rewrite delete_device_msgs_for_remote_eq. by destruct (charge 2 budget).
  - done.
Qed.

(** X14.  No method ever removes a row of [device_federation_inbox]: once
    an [(origin, message_id)] is recorded it stays recorded through any
    history of the store, and every later delivery under that pair, with
    whatever batch, leaves every table as it is. *)
Theorem recorded_for_good origin message_id s ops :
  recorded (database s) origin message_id →
  let s' := run_ops ujson_dumps ops s in
  recorded (database s') origin message_id
  ∧ ∀ local now_ms budget,
      database
        (add_messages_from_remote_to_device_inbox ujson_dumps origin
           message_id local now_ms budget s').2
      = database s'.
Proof.
  intros Hrec. cbv zeta.
  assert (recorded (database (run_ops ujson_dumps ops s)) origin message_id)
    as Hstill.
  { unfold run_ops. revert s Hrec.
    induction ops as [|o ops IH]; intros s Hrec; [done|].
    simpl. by apply IH, run_op_recorded. }
  split; [done|]. intros local now_ms budget.
  rewrite add_messages_from_remote_to_device_inbox_eq. cbv zeta.
  destruct (charge _ budget); simpl; [|done].
  by rewrite decide_True by done.
Qed.

End dedup.

(** ** When the replication reader returns nothing *)

(** X15.  [get_all_new_device_messages] returns without touching storage
    when [last_pos = current_pos]; and on a healthy storage engine it
    returns no row exactly when [limit] is 0 or the table has no row in
    [(last_pos, current_pos]], whichever driver it runs on.  So with a
    limit of at least 1 a caller that is behind never gets an empty
    answer. *)
Theorem get_all_new_device_messages_nothing db last_pos current_pos limit s :
  (last_pos = current_pos →
   ∀ budget,
     get_all_new_device_messages db last_pos current_pos limit budget s
     = Returned [])
  ∧ (get_all_new_device_messages db last_pos current_pos limit None s
     = Returned []
     ↔ limit = 0%nat
       ∨ ∀ r, r ∈ device_inbox (database s) →
           ¬ in_window last_pos current_pos (di_stream_id r)).
Proof.
  split.
  - intros -> budget. unfold get_all_new_device_messages.
    by rewrite decide_True by done.
  - rewrite get_all_new_device_messages_healthy.
    set (tbl := device_inbox (database s)).
    pose proof (select_stream_ids_nil tbl last_pos current_pos limit) as Hnil.
    pose proof (page_positions tbl last_pos current_pos limit) as Hpage.
    assert (filter (λ r, in_window last_pos current_pos (di_stream_id r))
              tbl = []
            ↔ ∀ r, r ∈ tbl →
                ¬ in_window last_pos current_pos (di_stream_id r))
      as Hempty.
    { split.
      - intros Hf r Hr Hw. by eapply (filter_nil_not_elem_of _ _ r Hf).
      - apply filter_none. }
    rewrite <- Hempty, <- Hnil. clear Hnil Hempty.
    rewrite select_stream_ids_last.
    destruct (last (take limit _)) as [frontier|]; simpl;
      [|by destruct db].
    destruct (Hpage frontier eq_refl) as ([Hlow _] & (r & Hr & Hpos) & _).
    destruct db; simpl; [done|].
    split; [|done]. intros [= Hrows].
    apply order_by_nil_inv in Hrows.
    exfalso. eapply (filter_nil_not_elem_of _ _ r Hrows); [|done].
    unfold in_window. lia.
Qed.

(** ** Windows below the token *)

Section stable_windows.
Context {json : Type} (ujson_dumps : json → string)
  (ujson_loads : string → json).

(** A step that is not a trim only appends, at the next position. *)
Lemma run_op_appends (o : op json) s :
  match o with
  | DeleteForDevice _ _ _ _ | DeleteForRemote _ _ _ => False
  | _ => True
  end →
  ∃ local_rows remote_rows,
    device_inbox (database (run_op ujson_dumps o s))
    = device_inbox (database s) ++ local_rows
    ∧ device_federation_outbox (database (run_op ujson_dumps o s))
      = device_federation_outbox (database s) ++ remote_rows
    ∧ Forall (λ r, di_stream_id r
                   = get_current_token (device_inbox_id_gen s) + 1) local_rows
    ∧ Forall (λ r, fo_stream_id r
                   = get_current_token (device_inbox_id_gen s) + 1) remote_rows.
Proof.
  destruct_op o; intros Hkind; try done.
  - rewrite add_messages_to_device_inbox_eq. cbv zeta.
    destruct (charge _ budget); simpl.
    + eexists _, _. split; [done|]. split; [done|].
      split; [apply expected_local_rows_stream_id|].
      apply Forall_forall. intros r Hr.
      by apply elem_of_federation_outbox_rows in Hr as (? & ? & _ & ->).
    + exists [], []. by rewrite !app_nil_r.
  - rewrite add_messages_from_remote_to_device_inbox_eq. cbv zeta.
    destruct (charge _ budget); simpl; [case_decide; simpl|].
    + exists [], []. by rewrite !app_nil_r.
    + exists (expected_local_rows ujson_dumps (devices (database s))
                (get_current_token (device_inbox_id_gen s) + 1) local), [].
      rewrite app_nil_r. split; [done|]. split; [done|].
      split; [apply expected_local_rows_stream_id|done].
    + exists [], []. by rewrite !app_nil_r.
  - exists [], []. simpl. by rewrite !app_nil_r.
Qed.

Lemma filter_window_append {A} (pos : A → Z) (P : A → Prop)
    `{!∀ x, Decision (P x)} (old new : list A) current a c :
  c ≤ current →
  Forall (λ r, pos r = current + 1) new →
  filter (λ r, P r ∧ in_window a c (pos r)) (old ++ new)
  = filter (λ r, P r ∧ in_window a c (pos r)) old.
Proof.
  intros Hc Hnew. rewrite filter_app, (filter_none _ new).
  - by rewrite app_nil_r.
  - rewrite Forall_forall in Hnew. intros r Hr [_ [_ Hhigh]].
    specialize (Hnew _ Hr). simpl in Hnew. lia.
Qed.

(** X17.  What lies at or below the token is settled.  For a position [c]
    at or below the current token, no later history of writes and
    [devices] changes (anything but trimming, whatever the storage engine
    does) alters what any device or destination holds in any window up to
    [c]; and on a store the methods can have produced, a read up to [c]
    with a limit of at least 1 returns after the history exactly what it
    returned before. *)
Theorem windows_below_token_are_settled ops s c :
  c ≤ get_to_device_stream_token s →
  Forall (λ o : op json,
            match o with
            | DeleteForDevice _ _ _ _ | DeleteForRemote _ _ _ => False
            | _ => True
            end) ops →
  let s' := run_ops ujson_dumps ops s in
  (∀ user_id device_id a,
     device_inbox_between (device_inbox (database s')) user_id device_id a c
     = device_inbox_between (device_inbox (database s)) user_id device_id a c)
  ∧ (∀ destination a,
       device_federation_outbox_between
         (device_federation_outbox (database s')) destination a c
       = device_federation_outbox_between
           (device_federation_outbox (database s)) destination a c)
  ∧ (reachable ujson_dumps s →
     ∀ user_id device_id a limit, (1 ≤ limit)%nat →
       get_new_messages_for_device ujson_loads user_id device_id a c limit
         None s'
       = get_new_messages_for_device ujson_loads user_id device_id a c limit
           None s).
Proof.
  intros Hc Hops. cbv zeta.
  assert ((∀ user_id device_id a,
             device_inbox_between
               (device_inbox (database (run_ops ujson_dumps ops s)))
               user_id device_id a c
             = device_inbox_between (device_inbox (database s)) user_id
                 device_id a c)
          ∧ (∀ destination a,
               device_federation_outbox_between
                 (device_federation_outbox
                    (database (run_ops ujson_dumps ops s))) destination a c
               = device_federation_outbox_between
                   (device_federation_outbox (database s)) destination a c))
    as [Hinbox Houtbox].
  { unfold run_ops. revert s Hc.
    induction Hops as [|o ops Ho Hops IH]; intros s Hc; [done|].
    simpl.
    destruct (run_op_appends o s Ho) as (lr & rr & Hdi & Hfo & Hlr & Hrr).
    destruct (IH (run_op ujson_dumps o s)) as [IH1 IH2].
    { pose proof (run_op_token ujson_dumps o s).
      unfold get_to_device_stream_token in *. lia. }
    split.
    - intros u d a. rewrite IH1, Hdi. unfold device_inbox_between. f_equal.
      rewrite (list_filter_iff _
                 (λ r, (di_user_id r = u ∧ di_device_id r = d)
                       ∧ in_window a c (di_stream_id r)))
        by (intros r; tauto).
      rewrite (filter_window_append di_stream_id _ _ _ _ _ _ Hc Hlr).
      apply list_filter_iff. intros r. tauto.
    - intros dest a. rewrite IH2, Hfo.
      unfold device_federation_outbox_between. f_equal.
      apply (filter_window_append fo_stream_id
               (λ r, fo_destination r = dest) _ _ _ _ _ Hc Hrr). }
  split; [done|]. split; [done|].
  intros Hreach u d a limit Hlimit.
  assert (reachable ujson_dumps (run_ops ujson_dumps ops s)) as Hreach'.
  { destruct Hreach as (ops0 & dv & fi & gen & ci & co & ->).
    exists (ops0 ++ ops), dv, fi, gen, ci, co.
    unfold run_ops. by rewrite foldl_app. }
  apply reachable_inv in Hreach as (_ & _ & Hsound).
  apply reachable_inv in Hreach' as (_ & _ & Hsound').
  rewrite !get_new_messages_for_device_healthy.
  unfold select_device_inbox. rewrite Hinbox.
  destruct (has_entity_changed (device_inbox_stream_cache
              (run_ops ujson_dumps ops s)) u a) eqn:Hc1,
    (has_entity_changed (device_inbox_stream_cache s) u a) eqn:Hc2; try done.
  - rewrite (cache_silent_no_rows s) by done.
    rewrite take_nil, collect_messages_eq. simpl.
    by rewrite decide_True by lia.
  - pose proof (cache_silent_no_rows _ u d a c Hsound' Hc1) as Hnone.
    rewrite Hinbox in Hnone. rewrite Hnone.
    rewrite take_nil, collect_messages_eq. simpl.
    by rewrite decide_True by lia.
Qed.

End stable_windows.

(** ** Trimming twice *)

(** X18.  Trims of one device compose to the later bound and trims of
    different devices commute: on a healthy storage engine, trimming a
    device up to [a] and then up to [b] leaves the store that one trim up
    to [max a b] leaves, and two trims of different devices leave the
    same store in either order. *)
Theorem delete_messages_for_device_compose user_id device_id a b u d s :
  (delete_messages_for_device user_id device_id b None
     (delete_messages_for_device user_id device_id a None s).2).2
  = (delete_messages_for_device user_id device_id (Z.max a b) None s).2
  ∧ ((u, d) ≠ (user_id, device_id) →
     (delete_messages_for_device u d b None
        (delete_messages_for_device user_id device_id a None s).2).2
     = (delete_messages_for_device user_id device_id a None
          (delete_messages_for_device u d b None s).2).2).
Proof.
  rewrite !delete_messages_for_device_eq, !charge_healthy. simpl.
  unfold delete_from_device_inbox. split.
  - do 2 f_equal. rewrite list_filter_filter. apply list_filter_iff.
    intros r. split.
    + intros [H1 H2] (Hu & Hd & Hle). destruct (Z.max_spec a b) as [[_ E]|[_ E]];
        rewrite E in Hle; tauto.
    + intros Hmax. split; intros (Hu & Hd & Hle); apply Hmax; split_and!;
        try done; lia.
  - intros Hne. do 2 f_equal. rewrite !list_filter_filter.
    apply list_filter_iff. intros r. tauto.
Qed.

(** ** The further properties at work on the sample server *)

(** X3 at work: after alice's first device has acknowledged up to 2, a
    read from 2 still finds the message at 3, and a read up to 2 finds
    nothing. *)
Lemma reads_after_delete_messages_for_device_witness :
  delete_messages_for_device "alice" "dev1" 2 None Sample.busy_store
  = (Returned (), Sample.trimmed)
  ∧ Sample.read "alice" "dev1" 2 3 10 None Sample.trimmed
    = Sample.read "alice" "dev1" 2 3 10 None Sample.busy_store
  ∧ Sample.read "alice" "dev1" 0 2 1 None Sample.trimmed = Returned ([], 2).
Proof.
  assert (delete_messages_for_device "alice" "dev1" 2 None Sample.busy_store
          = (Returned (), Sample.trimmed)) as Hcall
    by (vm_compute; reflexivity).
  split; [exact Hcall|].
  destruct (reads_after_delete_messages_for_device Sample.loads _ _ _ _ _ _
              Hcall) as [Hsame Hbelow].
  split.
  - apply Hsame. right. lia.
  - apply Hbelow; lia.
Defined.

(** X4 at work: after the remote server has acknowledged up to 3, nothing
    is left for it up to 3. *)
Lemma reads_after_delete_device_msgs_for_remote_witness :
  delete_device_msgs_for_remote "remote.example" 3 None Sample.busy_store
  = (Returned (), Sample.relayed)
  ∧ Sample.read_remote "remote.example" 0 3 1 None Sample.relayed
    = Returned ([], 3).
Proof.
  assert (delete_device_msgs_for_remote "remote.example" 3 None
            Sample.busy_store
          = (Returned (), Sample.relayed)) as Hcall
    by (vm_compute; reflexivity).
  split; [exact Hcall|].
  destruct (reads_after_delete_device_msgs_for_remote Sample.loads _ _ _ _ _
              Hcall) as [_ Hbelow].
  apply Hbelow; lia.
Defined.

(** X5 at work: three EDUs for one destination, read in pages of two. *)
Lemma read_sequence_remote_complete_witness :
  reachable Sample.dumps Sample.relay_store
  ∧ read_sequence_remote Sample.loads "remote.example" 5
      [(2%nat, None); (2%nat, None)] 0 Sample.relay_store
    = Returned (["edu"; "edu2"; "edu3"]%string, 5)
  ∧ ["edu"; "edu2"; "edu3"]%string
    = stored_remote_payloads Sample.loads Sample.relay_store
        "remote.example" 0 5.
Proof.
  pose proof (sample_reachable (Sample.history ++ Sample.more_relay))
    as Hreach.
  assert (read_sequence_remote Sample.loads "remote.example" 5
            [(2%nat, None); (2%nat, None)] 0 Sample.relay_store
          = Returned (["edu"; "edu2"; "edu3"]%string, 5)) as Hseq
    by (vm_compute; reflexivity).
  split; [exact Hreach|]. split; [exact Hseq|].
  destruct (read_sequence_remote_complete Sample.dumps Sample.loads _ _ _ _ _
              _ _ Hreach Hseq) as [_ Hall].
  exact (Hall eq_refl).
Defined.

(** X6 at work: three messages stored, four reads of two at a time. *)
Lemma read_sequence_reaches_current_witness :
  reachable Sample.dumps Sample.busy_store
  ∧ read_sequence Sample.loads "alice" "dev1" 3
      (replicate 4 (2%nat, None)) 0 Sample.busy_store
    = Returned (stored_payloads Sample.loads Sample.busy_store "alice" "dev1"
                  0 3, 3).
Proof.
  pose proof (sample_reachable Sample.history) as Hreach.
  split; [exact Hreach|].
  apply (read_sequence_reaches_current Sample.dumps Sample.loads);
    [exact Hreach|lia|vm_compute; lia].
Defined.

(** X7 at work: the sample store after its three batches. *)
Lemma reachable_store_invariants_witness :
  reachable Sample.dumps Sample.busy_store
  ∧ NoDup (device_inbox (database Sample.busy_store))
  ∧ ∀ r, r ∈ device_inbox (database Sample.busy_store) →
      di_stream_id r ≤ get_to_device_stream_token Sample.busy_store.
Proof.
  pose proof (sample_reachable Sample.history) as Hreach.
  split; [exact Hreach|].
  destruct (reachable_store_invariants Sample.dumps _ Hreach)
    as (Hissued & _ & _ & _ & Hnodup & _).
  split; [exact Hnodup|exact Hissued].
Defined.

(** X8 at work: carol is not in the cache, and her query finds nothing. *)
Lemma change_cache_is_transparent_witness :
  reachable Sample.dumps Sample.busy_store
  ∧ has_entity_changed (device_inbox_stream_cache Sample.busy_store) "carol" 0
    = false
  ∧ Sample.read "carol" "phone" 0 3 1 None Sample.busy_store
    = collect_messages Sample.loads
        (select_device_inbox (device_inbox (database Sample.busy_store))
           "carol" "phone" 0 3 1) 3 1.
Proof.
  pose proof (sample_reachable Sample.history) as Hreach.
  split; [exact Hreach|]. split; [vm_compute; reflexivity|].
  assert (1 ≤ 1)%nat as Hlimit by lia.
  destruct (change_cache_is_transparent Sample.dumps Sample.loads "carol"
              "phone" "remote.example" 0 3 1 Sample.busy_store Hreach
              Hlimit) as [Hdevice _].
  exact Hdevice.
Defined.

(** X9 at work: a full page of two ends inside the window. *)
Lemma cursor_read_bounds_witness :
  Sample.read "alice" "dev1" 0 3 2 None Sample.busy_store
  = Returned (["m1"; "m2"]%string, 2)
  ∧ (2 = 3 ∨ length ["m1"; "m2"]%string = 2%nat ∧ 0 < 2 ∧ 2 ≤ 3).
Proof.
  assert (Sample.read "alice" "dev1" 0 3 2 None Sample.busy_store
          = Returned (["m1"; "m2"]%string, 2)) as Hread
    by (vm_compute; reflexivity).
  split; [exact Hread|].
  destruct (cursor_read_bounds Sample.loads "alice" "dev1" "remote.example"
              0 3 2 None Sample.busy_store _ _ (or_introl Hread))
    as [_ Hpos].
  exact Hpos.
Defined.

(** X13 at work: the fan-out, written at 3, read back from 2 to 3. *)
Lemma enqueue_then_read_round_trip_witness :
  reachable Sample.dumps Sample.two_messages
  ∧ Sample.enqueue Sample.fan_out Sample.relay 30 None Sample.two_messages
    = (Returned 3, Sample.busy_store)
  ∧ Sample.read "alice" "dev2" (3 - 1) 3 5 None Sample.busy_store
    = Returned (["k2"]%string, 3)
  ∧ Sample.read "bob" "tablet" (3 - 1) 3 5 None Sample.busy_store
    = Returned ([], 3)
  ∧ Sample.read_remote "remote.example" (3 - 1) 3 5 None Sample.busy_store
    = Returned (["edu"]%string, 3).
Proof.
  pose proof (sample_reachable (take 2 Sample.history)) as Hreach.
  assert (Sample.enqueue Sample.fan_out Sample.relay 30 None
            Sample.two_messages
          = (Returned 3, Sample.busy_store)) as Hcall
    by (vm_compute; reflexivity).
  split; [exact Hreach|]. split; [exact Hcall|].
  assert (1 ≤ 5)%nat as Hlimit by lia.
  destruct (enqueue_then_read_round_trip Sample.dumps Sample.loads _ _ _ _ _
              _ _ 5%nat Hreach Hcall Hlimit) as [Hlocal Hremote].
  split; [|split].
  - etrans;
      [apply (Hlocal "alice"%string
                (<[ "dev1" := "k1" ]> {[ "dev2" := "k2" ]})%string
                "dev2"%string "k2"%string)|];
      vm_compute; reflexivity.
  - etrans;
      [apply (Hlocal "bob"%string {[ "tablet" := "k3" ]}%string
                "tablet"%string "k3"%string)|];
      vm_compute; reflexivity.
  - etrans; [apply (Hremote "remote.example"%string "edu"%string)|];
      vm_compute; reflexivity.
Defined.

(** X14 at work: the delivery recorded once is still recorded after the
    three batches. *)
Lemma recorded_for_good_witness :
  recorded (database Sample.delivered_once) "serverA" "msg-1"
  ∧ recorded
      (database (run_ops Sample.dumps Sample.history Sample.delivered_once))
      "serverA" "msg-1".
Proof.
  assert (recorded (database Sample.delivered_once) "serverA" "msg-1") as Hrec
    by (apply Exists_cons; by left).
  split; [exact Hrec|].
  destruct (recorded_for_good Sample.dumps "serverA" "msg-1"
              Sample.delivered_once Sample.history Hrec) as [Hstill _].
  exact Hstill.
Defined.

(** X16 at work: the first delivery, written at 1, read back from 0 to 1. *)
Lemma ingest_then_read_round_trip_witness :
  reachable Sample.dumps Sample.empty_store
  ∧ Sample.ingest_remote "serverA" "msg-1" Sample.remote_batch 100 None
      Sample.empty_store
    = (Returned (), Sample.delivered_once)
  ∧ Sample.read "carol" "phone" (0 + 1 - 1) (0 + 1) 1 None
      Sample.delivered_once
    = Returned (["hello"]%string, 0 + 1).
Proof.
  pose proof (sample_reachable []) as Hreach.
  assert (Sample.ingest_remote "serverA" "msg-1" Sample.remote_batch 100 None
            Sample.empty_store
          = (Returned (), Sample.delivered_once)) as Hcall
    by (vm_compute; reflexivity).
  split; [exact Hreach|]. split; [exact Hcall|].
  assert (1 ≤ 1)%nat as Hlimit by lia.
  destruct (ingest_then_read_round_trip Sample.dumps Sample.loads _ _ _ _ _ _
              _ 1%nat Hreach Hcall Hlimit) as [Hfirst _].
  assert (¬ recorded (database Sample.empty_store) "serverA" "msg-1")
    as Hfresh by (by intros ?%Exists_nil).
  etrans;
    [apply (Hfirst Hfresh "carol"%string
              {[ "phone" := "hello" ]}%string "phone"%string "hello"%string)|];
    vm_compute; reflexivity.
Defined.

(** X17 at work: the fan-out at 3 changes nothing in alice's window up to
    2. *)
Lemma windows_below_token_are_settled_witness :
  2 ≤ get_to_device_stream_token Sample.two_messages
  ∧ device_inbox_between (device_inbox (database Sample.busy_store))
      "alice" "dev1" 0 2
    = device_inbox_between (device_inbox (database Sample.two_messages))
        "alice" "dev1" 0 2.
Proof.
  assert (2 ≤ get_to_device_stream_token Sample.two_messages) as Htoken
    by (vm_compute; discriminate).
  split; [exact Htoken|].
  assert (Forall (λ o : op string,
                    match o with
                    | DeleteForDevice _ _ _ _ | DeleteForRemote _ _ _ => False
                    | _ => True
                    end) [Enqueue Sample.fan_out Sample.relay 30 None])
    as Hwrites by (repeat constructor).
  destruct (windows_below_token_are_settled Sample.dumps Sample.loads
              [Enqueue Sample.fan_out Sample.relay 30 None]
              Sample.two_messages 2 Htoken Hwrites) as [Hinbox _].
  exact (Hinbox "alice"%string "dev1"%string 0).
Defined.
